(** * Post price concession changes: a shallow embedding of the notebook

    The notebook [notebooks/diffable_python/Post price concession changes.py]
    is a straight-line pandas pipeline.  Every data frame is embedded as the
    list of its rows, in row order; every pandas operation the pipeline uses
    is embedded as a list function; the reshaping step, which pandas refuses
    on a duplicated index, returns an [option].

    Months.  Every timestamp of the pipeline is the first day of a calendar
    month, so a month is embedded as the integer [12 * year + (month - 1)];
    [pd.DateOffset(months=k)] is then the addition of [k].

    Floats.  A float64 column is embedded as exact rationals extended with
    the IEEE special values the pipeline's arithmetic can produce
    (see [Float]); rounding is not modelled. *)

From Stdlib Require Import String.
From Stdlib Require Import ZArith QArith List Bool Lia Permutation FinFun.
From Stdlib Require Import Sorted Lqa Qminmax.
Import ListNotations.
Local Open Scope Z_scope.

(** ** Float columns *)

Module Float.

(** A float64 cell: a finite value, an infinity, or NaN.  NaN is also
    pandas' null marker for a float column. *)
Inductive float : Type :=
| Fin (q : Q)
| PInf
| NInf
| NaN.

Definition isna (x : float) : bool :=
  match x with NaN => true | _ => false end.

Definition is_zero (q : Q) : bool := (Qnum q =? 0)%Z.
Definition is_pos (q : Q) : bool := (0 <? Qnum q)%Z.

Definition inf_of_sign (positive : bool) : float :=
  if positive then PInf else NInf.

Definition fneg (x : float) : float :=
  match x with
  | Fin q => Fin (- q)
  | PInf => NInf
  | NInf => PInf
  | NaN => NaN
  end.

Definition fadd (x y : float) : float :=
  match x, y with
  | NaN, _ | _, NaN => NaN
  | Fin a, Fin b => Fin (a + b)
  | PInf, NInf | NInf, PInf => NaN
  | PInf, _ | _, PInf => PInf
  | NInf, _ | _, NInf => NInf
  end.

Definition fsub (x y : float) : float := fadd x (fneg y).

Definition fmul (x y : float) : float :=
  match x, y with
  | NaN, _ | _, NaN => NaN
  | Fin a, Fin b => Fin (a * b)
  | Fin a, PInf | PInf, Fin a =>
      if is_zero a then NaN else inf_of_sign (is_pos a)
  | Fin a, NInf | NInf, Fin a =>
      if is_zero a then NaN else inf_of_sign (negb (is_pos a))
  | PInf, PInf | NInf, NInf => PInf
  | PInf, NInf | NInf, PInf => NInf
  end.

(** numpy's true division, warnings silenced as pandas does: a finite
    nonzero value over zero is an infinity, zero over zero is NaN. *)
Definition fdiv (x y : float) : float :=
  match x, y with
  | NaN, _ | _, NaN => NaN
  | Fin a, Fin b =>
      if is_zero b
      then (if is_zero a then NaN else inf_of_sign (is_pos a))
      else Fin (a / b)
  | Fin _, (PInf | NInf) => Fin 0
  | PInf, Fin b => inf_of_sign (is_zero b || is_pos b)
  | NInf, Fin b => inf_of_sign (negb (is_zero b || is_pos b))
  | (PInf | NInf), (PInf | NInf) => NaN
  end.

(** Equality of cells up to equality of rationals. *)
Definition feq (x y : float) : Prop :=
  match x, y with
  | Fin a, Fin b => a == b
  | PInf, PInf | NInf, NInf | NaN, NaN => True
  | _, _ => False
  end.

End Float.

(** ** Frame operations *)

Module Frame.

Section Sorting.
Context {A : Type} (leb : A -> A -> bool).

Fixpoint insert (x : A) (l : list A) : list A :=
  match l with
  | [] => [x]
  | y :: t => if leb x y then x :: l else y :: insert x t
  end.

(** Stable insertion sort: the embedding of [sort_values] and
    [sort_index]. *)
Definition sort (l : list A) : list A := fold_right insert [] l.
End Sorting.

(** Lexicographic order on a two-level key. *)
Definition lex_leb (a b : Z * Z) : bool :=
  (fst a <? fst b) || ((fst a =? fst b) && (snd a <=? snd b)).

Definition pair_eq_dec (a b : Z * Z) : {a = b} + {a <> b}.
Proof. decide equality; apply Z.eq_dec. Defined.

(** The sorted distinct labels of an index level. *)
Definition unique_sorted (l : list Z) : list Z :=
  sort Z.leb (nodup Z.eq_dec l).

Definition unique_sorted2 (l : list (Z * Z)) : list (Z * Z) :=
  sort lex_leb (nodup pair_eq_dec l).

Fixpoint has_duplicates (l : list (Z * Z)) : bool :=
  match l with
  | [] => false
  | k :: t => (if in_dec pair_eq_dec k t then true else false) || has_duplicates t
  end.

(** [pd.date_range(lo, hi, freq='MS')]. *)
Definition date_range (lo hi : Z) : list Z :=
  map (fun i => lo + Z.of_nat i) (seq 0 (Z.to_nat (hi - lo + 1))).

Definition list_min (l : list Z) : option Z :=
  match l with [] => None | x :: t => Some (fold_left Z.min t x) end.

Definition list_max (l : list Z) : option Z :=
  match l with [] => None | x :: t => Some (fold_left Z.max t x) end.

(** [Series.shift()]: every value moves one row down, the first row
    becomes null. *)
Definition shift {A : Type} (l : list A) : list (option A) :=
  firstn (length l) (None :: map Some l).

(** [s != s.shift()]: a null never compares equal. *)
Definition ne_shift (l : list Z) : list bool :=
  map (fun p => match snd p with
                | None => true
                | Some y => negb (fst p =? y)
                end)
      (combine l (shift l)).

(** [cumsum] of a boolean column. *)
Fixpoint cumsum_from (acc : Z) (l : list bool) : list Z :=
  match l with
  | [] => []
  | b :: t => let acc' := if b then acc + 1 else acc in
              acc' :: cumsum_from acc' t
  end.

Definition cumsum (l : list bool) : list Z := cumsum_from 0 l.

(** [groupby(keys).transform('size')]: every row receives the number of
    rows carrying its key. *)
Definition transform_size (keys : list Z) : list Z :=
  map (fun k => Z.of_nat (count_occ Z.eq_dec keys k)) keys.

(** [pd.merge(left, right, how='left')]: left rows in order, each paired
    with every matching right row, or with null when none matches. *)
Definition merge_left {L R : Type} (on : L -> R -> bool)
           (left : list L) (right : list R) : list (L * option R) :=
  flat_map (fun x => match filter (on x) right with
                     | [] => [(x, None)]
                     | ms => map (fun y => (x, Some y)) ms
                     end) left.

(** [pd.merge(left, right, how='right')]. *)
Definition merge_right {L R : Type} (on : L -> R -> bool)
           (left : list L) (right : list R) : list (option L * R) :=
  flat_map (fun y => match filter (fun x => on x y) left with
                     | [] => [(None, y)]
                     | ms => map (fun x => (Some x, y)) ms
                     end) right.

End Frame.

(** ** Concession timeline and episodes (source lines 43-80) *)

Module Concession.
Import Frame.

(** A row of the table [ebmdatalab.dmd.ncsoconcession], reduced to the
    two columns the query reads. *)
Record ncso_row : Type := { ncso_vmpp : Z; ncso_date : Z }.

(** A row of a concession frame: columns [month], [vmpp],
    [concession_bool]. *)
Record flag_row : Type := { month : Z; vmpp : Z; concession_bool : Z }.

Definition flag_row_eq_dec (a b : flag_row) : {a = b} + {a <> b}.
Proof. decide equality; apply Z.eq_dec. Defined.

(** The query of lines 44-51:
    [SELECT DISTINCT ncso.vmpp AS vmpp, ncso.date AS month,
     1 AS concession_bool FROM ncsoconcession AS ncso]. *)
Definition select_distinct (t : list ncso_row) : list flag_row :=
  nodup flag_row_eq_dec
        (map (fun r => {| month := ncso_date r; vmpp := ncso_vmpp r;
                          concession_bool := 1 |}) t).

(** Line 55: [sort_values(by=['month','vmpp'])]. *)
Definition sort_values_month_vmpp (df : list flag_row) : list flag_row :=
  sort (fun a b => lex_leb (month a, vmpp a) (month b, vmpp b)) df.

(** Lines 53-55. *)
Definition dates_df (t : list ncso_row) : list flag_row :=
  sort_values_month_vmpp (select_distinct t).

(** A month by drug matrix: the column labels, and one labelled row of
    cells per index entry. *)
Record wide (C : Type) : Type :=
  { columns : list Z; rows : list (Z * list C) }.
Arguments columns {C} _.
Arguments rows {C} _.

Definition index_key (r : flag_row) : Z * Z := (month r, vmpp r).

Definition lookup (df : list flag_row) (m v : Z) : option Z :=
  option_map concession_bool
             (find (fun r => (month r =? m) && (vmpp r =? v)) df).

(** [set_index(['month','vmpp']).unstack()]: pandas raises
    [ValueError: Index contains duplicate entries, cannot reshape] on a
    duplicated (month, vmpp) pair; a cell without a source row is null. *)
Definition unstack (df : list flag_row) : option (wide (option Z)) :=
  if has_duplicates (map index_key df) then None
  else
    let cols := unique_sorted (map vmpp df) in
    Some {| columns := cols;
            rows := map (fun m => (m, map (lookup df m) cols))
                        (unique_sorted (map month df)) |}.

(** [asfreq('MS')]: reindex on every month start from the least to the
    greatest index entry; a new row is null throughout.  An empty frame
    is returned as it is. *)
Definition asfreq_MS (w : wide (option Z)) : wide (option Z) :=
  match list_min (map fst (rows w)), list_max (map fst (rows w)) with
  | Some lo, Some hi =>
      {| columns := columns w;
         rows := map (fun m =>
                        (m, match find (fun r => fst r =? m) (rows w) with
                            | Some r => snd r
                            | None => map (fun _ => None) (columns w)
                            end))
                     (date_range lo hi) |}
  | _, _ => w
  end.

Definition fillna (d : Z) (w : wide (option Z)) : wide Z :=
  {| columns := columns w;
     rows := map (fun r => (fst r,
                            map (fun c => match c with
                                          | Some x => x
                                          | None => d
                                          end) (snd r)))
                 (rows w) |}.

(** [stack()]: the drug level goes back to the index, month-major. *)
Definition stack (w : wide Z) : list flag_row :=
  flat_map (fun r => map (fun c => {| month := fst r; vmpp := fst c;
                                      concession_bool := snd c |})
                         (combine (columns w) (snd r)))
           (rows w).

(** [sort_index(level=1)]: by drug, then by the remaining level. *)
Definition sort_index_level1 (df : list flag_row) : list flag_row :=
  sort (fun a b => lex_leb (vmpp a, month a) (vmpp b, month b)) df.

(** Line 61. *)
Definition dates_cons_df (df : list flag_row) : option (list flag_row) :=
  option_map (fun w => sort_index_level1 (stack (fillna 0 (asfreq_MS w))))
             (unstack df).

(** Lines 43-61, from the concession table to the dense timeline. *)
Definition timeline (t : list ncso_row) : option (list flag_row) :=
  dates_cons_df (dates_df t).

(** A timeline row with the column added by [assign]. *)
Record run_row : Type := { row : flag_row; Consecutive : Z }.

(** Lines 71-73: the run identifier is the running count of value
    changes down the whole [concession_bool] column; [Consecutive] is the
    number of rows that share a row's run identifier. *)
Definition assign_Consecutive (df : list flag_row) : list run_row :=
  let cb := map concession_bool df in
  map (fun p => {| row := fst p; Consecutive := snd p |})
      (combine df (transform_size (cumsum (ne_shift cb)))).

Record episode : Type :=
  { ep_vmpp : Z; ep_Consecutive : Z; first_month : Z; last_month : Z }.

Definition group_key (r : run_row) : Z * Z := (vmpp (row r), Consecutive r).

(** Lines 75-78: [groupby(['vmpp','Consecutive'])], one output row per
    distinct key in key order, carrying the month of the first and of
    the last row of the group; [reset_index()]. *)
Definition groupby_aggregate (df : list run_row) : list episode :=
  map (fun k =>
         let g := map (fun r => month (row r))
                      (filter (fun r => (vmpp (row r) =? fst k)
                                        && (Consecutive r =? snd k)) df) in
         {| ep_vmpp := fst k; ep_Consecutive := snd k;
            first_month := hd 0 g; last_month := last g 0 |})
      (unique_sorted2 (map group_key df)).

(** Lines 71-78, before the last [query]. *)
Definition episodes (dense : list flag_row) : list episode :=
  groupby_aggregate
    (filter (fun r => 0 <? concession_bool (row r))
            (assign_Consecutive dense)).

(** Line 70; the maximum of an empty column is null. *)
Definition max_date (dense : list flag_row) : option Z :=
  option_map (fun m => m + (-3)) (list_max (map month dense)).

(** Line 78: [query("last_month < @max_date")]; a comparison with null
    is false. *)
Definition query_last_month (d : option Z) (l : list episode) : list episode :=
  filter (fun e => match d with
                   | Some d => last_month e <? d
                   | None => false
                   end) l.

(** Lines 70-80, on a timeline with at least one row.  From an empty
    concession frame line 61 returns a frame without the
    [concession_bool] column, and line 71 then raises; that case is
    outside this embedding. *)
Definition pc_summary_df (dense : list flag_row) : list episode :=
  query_last_month (max_date dense) (episodes dense).

Definition ncso (v d : Z) : ncso_row := {| ncso_vmpp := v; ncso_date := d |}.

End Concession.

(** ** Tariff prices and the episode-price join (source lines 89-128) *)

Module Tariff.
Import Frame Float Concession.

(** A row of the tariff query of lines 91-105, reduced to the columns
    the pipeline reads.  [price_pence] is an integer column of the
    tariff table, [unit_qty] a numeric one. *)
Record tariff_row : Type :=
  { bnf_code : string; nm : string; unit_qty : Q;
    t_vmpp : Z; date : Z; price_pence : Q }.

Definition mean (l : list Q) : Q :=
  fold_right Qplus 0%Q l / inject_Z (Z.of_nat (length l)).

Definition lastn {A : Type} (n : nat) (l : list A) : list A :=
  skipn (length l - n) l.

(** [x.rolling(window, min_periods).mean()]: at each position the mean
    of the trailing window, null while the window holds fewer than
    [min_periods] observations. *)
Definition rolling_mean (window min_periods : nat) (xs : list Q) : list float :=
  map (fun i => let w := lastn window (firstn (S i) xs) in
                if (min_periods <=? length w)%nat then Fin (mean w) else NaN)
      (seq 0 (length xs)).

Definition same_vmpp (v : Z) (r : tariff_row) : bool := t_vmpp r =? v.

(** The series of one group, in frame order. *)
Definition group (v : Z) (df : list tariff_row) : list tariff_row :=
  filter (same_vmpp v) df.

(** [df.groupby('vmpp')['price_pence'].transform(f)]: [f] runs on the
    price series of each group, taken in frame order, and every row
    receives the value at its own position within its group. *)
Definition groupby_transform (f : list Q -> list float)
           (df : list tariff_row) : list float :=
  map (fun i =>
         match nth_error df i with
         | Some r =>
             nth (length (group (t_vmpp r) (firstn i df)))
                 (f (map price_pence (group (t_vmpp r) df))) NaN
         | None => NaN
         end)
      (seq 0 (length df)).

(** A tariff row with the three columns added on lines 116-118. *)
Record priced_row : Type :=
  { src : tariff_row; pre_month : Z; post_month : Z;
    three_month_price : float }.

(** Lines 116-118. *)
Definition priced (df : list tariff_row) : list priced_row :=
  map (fun p => {| src := fst p;
                   pre_month := date (fst p) + 1;
                   post_month := date (fst p) + (-3);
                   three_month_price := snd p |})
      (combine df (groupby_transform (rolling_mean 3 3) df)).

(** The keys of the merge of line 119 and of the merge of line 121. *)
Definition on_pre (e : episode) (r : priced_row) : bool :=
  (ep_vmpp e =? t_vmpp (src r)) && (first_month e =? pre_month r).

Definition on_post (e : episode) (r : priced_row) : bool :=
  (ep_vmpp e =? t_vmpp (src r)) && (last_month e =? post_month r).

(** A row of [dates_df_merge].  A column taken from a price row is null
    when the merge found no price row. *)
Record joined_row : Type :=
  { ep : episode;
    j_bnf_code : option string; j_nm : option string; j_unit_qty : float;
    pre_pc_price : float; post_pc_price : float;
    perc_difference : float; rx_merge_date : Z }.

Definition price_of (r : option priced_row) : float :=
  match r with Some r => three_month_price r | None => NaN end.

(** Line 125. *)
Definition perc_difference_of (post pre : float) : float :=
  fsub (fdiv post pre) (Fin 1).

(** Line 126. *)
Definition rx_merge_date_of (e : episode) : Z := last_month e + 1.

(** The columns kept from the two merges (lines 119-123) and the two
    row-wise columns of lines 125-126. *)
Definition join_row (x : (episode * option priced_row) * option priced_row)
  : joined_row :=
  let e := fst (fst x) in
  let pre := snd (fst x) in
  let post := snd x in
  {| ep := e;
     j_bnf_code := option_map (fun r => bnf_code (src r)) pre;
     j_nm := option_map (fun r => nm (src r)) pre;
     j_unit_qty := match pre with
                   | Some r => Fin (unit_qty (src r))
                   | None => NaN
                   end;
     pre_pc_price := price_of pre;
     post_pc_price := price_of post;
     perc_difference := perc_difference_of (price_of post) (price_of pre);
     rx_merge_date := rx_merge_date_of e |}.

(** Lines 116-127.  The two sorts only reorder rows; the columns of
    lines 125-126 are computed row by row.  The sort of line 127 is
    pandas' default one, which is not stable: the code does not fix the
    order among rows with the same [last_month], where the embedding
    keeps the order of line 124. *)
Definition dates_df_merge (pc_summary_df : list episode)
           (dates_df : list tariff_row) : list joined_row :=
  let p := priced dates_df in
  let m1 := merge_left on_pre pc_summary_df p in
  let m2 := merge_left (fun x => on_post (fst x)) m1 p in
  let by_vmpp :=
    sort (fun a b => lex_leb (ep_vmpp (ep a), first_month (ep a))
                             (ep_vmpp (ep b), first_month (ep b)))
         (map join_row m2) in
  sort (fun a b => last_month (ep b) <=? last_month (ep a)) by_vmpp.

End Tariff.

(** ** Quantities and cost impact (source lines 138-177) *)

Module Impact.
Import Frame Float Concession Tariff.

(** A row of the quantity frame of lines 162-164.  The frame is read
    from the cache file, so the drug code is a nullable column. *)
Record rx_row : Type :=
  { date_3m_start : Z; rx_bnf_code : option string; roll_3m_quantity : Q }.

(** Line 165: only window starts with two further months of data.  The
    greatest start is taken with Python's built-in [max], which raises
    [ValueError] on an empty column. *)
Definition rx_df (fetched : list rx_row) : option (list rx_row) :=
  match list_max (map date_3m_start fetched) with
  | Some mx => Some (filter (fun r => date_3m_start r <=? mx + (-2)) fetched)
  | None => None
  end.

(** The key of the merge of line 173.  pandas matches a null key with a
    null key. *)
Definition on_rx (j : joined_row) (r : rx_row) : bool :=
  match j_bnf_code j, rx_bnf_code r with
  | Some a, Some b => String.eqb a b
  | None, None => true
  | _, _ => false
  end && (rx_merge_date j =? date_3m_start r).

(** A row of [rx_df_merge]: the episode side is null as a whole when the
    right join found no episode row. *)
Record impact_row : Type :=
  { matched : option joined_row; rx : rx_row; additional_cost : float }.

Definition col_unit_qty (m : option joined_row) : float :=
  match m with Some j => j_unit_qty j | None => NaN end.
Definition col_pre_pc_price (m : option joined_row) : float :=
  match m with Some j => pre_pc_price j | None => NaN end.
Definition col_post_pc_price (m : option joined_row) : float :=
  match m with Some j => post_pc_price j | None => NaN end.

(** Line 174. *)
Definition additional_cost_of (roll_3m_quantity unit_qty post pre : float)
  : float :=
  fmul (fmul (Fin (1 # 100)) (fdiv roll_3m_quantity unit_qty))
       (fsub post pre).

(** Lines 173-174. *)
Definition rx_df_merge (dates_df_merge : list joined_row)
           (rx_df : list rx_row) : list impact_row :=
  map (fun x => {| matched := fst x; rx := snd x;
                   additional_cost :=
                     additional_cost_of (Fin (roll_3m_quantity (snd x)))
                                        (col_unit_qty (fst x))
                                        (col_post_pc_price (fst x))
                                        (col_pre_pc_price (fst x)) |})
      (merge_right on_rx dates_df_merge rx_df).

(** [Series.sum()]: nulls are skipped, and the sum of no value is 0. *)
Definition nansum (l : list float) : float :=
  fold_left fadd (filter (fun x => negb (isna x)) l) (Fin 0).

(** Line 181 up to [sum()]: [groupby('date_3m_start')] gives one total per
    window start, in ascending order of the start.  The formatting of
    each total as a currency string is not embedded. *)
Definition rx_sum_df (rx_df_merge : list impact_row) : list (Z * float) :=
  map (fun d =>
         (d, nansum (map additional_cost
                         (filter (fun i => date_3m_start (rx i) =? d)
                                 rx_df_merge))))
      (unique_sorted (map (fun i => date_3m_start (rx i)) rx_df_merge)).

End Impact.

(** ** The quantity query (source lines 140-160) *)

Module Prescribing.
Import Frame Float Concession Impact.

(** A row of [ebmdatalab.hscic.normalised_prescribing] and a row of
    [dmd.vmpp], reduced to the columns the query reads. *)
Record prescribing_row : Type :=
  { rx_month : Z; p_bnf_code : string; quantity : Q }.

Record vmpp_row : Type := { vmpp_id : Z; vmpp_bnf_code : string }.

(** The month of ['2022-04-01']. *)
Definition start_month : Z := 12 * 2022 + 3.

(** [vmpp.id IN (SELECT DISTINCT vmpp FROM ncsoconcession)]. *)
Definition in_concession (ncso : list ncso_row) (id : Z) : bool :=
  existsb (fun c => ncso_vmpp c =? id) ncso.

(** The pack rows a prescribing row is joined to:
    [ON rx.bnf_code = vmpp.bnf_code], with the [WHERE] clause. *)
Definition join_partners (ncso : list ncso_row) (vmpps : list vmpp_row)
           (r : prescribing_row) : list vmpp_row :=
  filter (fun v => String.eqb (p_bnf_code r) (vmpp_bnf_code v)
                   && in_concession ncso (vmpp_id v)
                   && (start_month <=? rx_month r)) vmpps.

(** [FROM ... INNER JOIN ... WHERE ...]: one row per prescribing row and
    pack row that satisfy the join and the filter; only prescribing
    columns are read afterwards. *)
Definition joined (ncso : list ncso_row) (vmpps : list vmpp_row)
           (rxs : list prescribing_row) : list prescribing_row :=
  flat_map (fun r => map (fun _ => r) (join_partners ncso vmpps r)) rxs.

Definition in_window (b : string) (m : Z) (r : prescribing_row) : bool :=
  String.eqb (p_bnf_code r) b && (m <=? rx_month r) && (rx_month r <=? m + 2).

Definition total (l : list prescribing_row) : Q :=
  fold_right Qplus 0%Q (map quantity l).

(** [SUM(rx.quantity) OVER (PARTITION BY rx.bnf_code ORDER BY <month
    number> RANGE BETWEEN 0 PRECEDING AND 2 FOLLOWING)] at a row of code
    [b] and month [m]: the total over the joined rows of the same code
    whose month is [m], [m + 1] or [m + 2]. *)
Definition window_sum (rows : list prescribing_row) (b : string) (m : Z) : Q :=
  total (filter (in_window b m) rows).

Definition Q_eq_dec (a b : Q) : {a = b} + {a <> b}.
Proof. decide equality; [apply Pos.eq_dec | apply Z.eq_dec]. Defined.

Definition rx_row_eq_dec (a b : rx_row) : {a = b} + {a <> b}.
Proof.
  decide equality;
    [apply Q_eq_dec | decide equality; apply string_dec | apply Z.eq_dec].
Defined.

(** Lines 140-160: [SELECT DISTINCT] of the window start, the code and
    the window sum, [ORDER BY date_3m_start DESC]. *)
Definition rx_query (ncso : list ncso_row) (vmpps : list vmpp_row)
           (rxs : list prescribing_row) : list rx_row :=
  let rows := joined ncso vmpps rxs in
  sort (fun a b => date_3m_start b <=? date_3m_start a)
       (nodup rx_row_eq_dec
              (map (fun r => {| date_3m_start := rx_month r;
                                rx_bnf_code := Some (p_bnf_code r);
                                roll_3m_quantity :=
                                  window_sum rows (p_bnf_code r)
                                             (rx_month r) |})
                   rows)).

End Prescribing.

(** ** Reference notions the properties are stated with *)

Module Reference.
Import Frame Float Concession Tariff Impact Prescribing.


(** How many rows of a concession frame carry drug [v] and month [m]. *)
Definition count_rows (v m : Z) (df : list flag_row) : nat :=
  count_occ pair_eq_dec (map index_key df) (m, v).

(** The value a dense timeline holds for month [m] and drug [v]: the
    input's flag where the input has the pair, false (0) elsewhere. *)
Definition cell (df : list flag_row) (m v : Z) : Z :=
  match lookup df m v with Some x => x | None => 0 end.

(** The rows of the dense timeline, month-major as [stack] leaves them. *)
Definition dense_rows (df : list flag_row) (lo hi : Z) : list flag_row :=
  flat_map (fun m => map (fun v => {| month := m; vmpp := v;
                                      concession_bool := cell df m v |})
                         (unique_sorted (map vmpp df)))
           (date_range lo hi).

(** Run-length encoding of one drug's chronological series, written from
    the specification: one (first, last, length) triple per maximal run
    of true flags; [cur] is the run being read. *)
Fixpoint true_runs (cur : option (Z * Z * Z)) (l : list flag_row)
  : list (Z * Z * Z) :=
  match l with
  | [] => match cur with Some c => [c] | None => [] end
  | r :: t =>
      if 0 <? concession_bool r
      then match cur with
           | Some (f, _, n) => true_runs (Some (f, month r, n + 1)) t
           | None => true_runs (Some (month r, month r, 1)) t
           end
      else match cur with
           | Some c => c :: true_runs None t
           | None => true_runs None t
           end
  end.

(** The specification's episode extractor: the true runs of every drug,
    drug by drug. *)
Definition run_length_episodes (dense : list flag_row) : list episode :=
  flat_map (fun v =>
              map (fun c => {| ep_vmpp := v; ep_Consecutive := snd c;
                               first_month := fst (fst c);
                               last_month := snd (fst c) |})
                  (true_runs None (filter (fun r => vmpp r =? v) dense)))
           (unique_sorted (map vmpp dense)).




End Reference.

(** ** Concrete inputs *)

Module Examples.
Import Frame Float Concession Tariff Impact Prescribing Reference.

Definition mk_episode (v n f l : Z) : episode :=
  {| ep_vmpp := v; ep_Consecutive := n; first_month := f; last_month := l |}.

Definition mk_flag (m v c : Z) : flag_row :=
  {| month := m; vmpp := v; concession_bool := c |}.

Definition mk_tariff (v d : Z) (p : Q) : tariff_row :=
  {| bnf_code := "0407010H0AAAMAM"; nm := "tablets"; unit_qty := 1;
     t_vmpp := v; date := d; price_pence := p |}.

Definition mk_rx (d : Z) (q : Q) : rx_row :=
  {| date_3m_start := d; rx_bnf_code := Some "0407010H0AAAMAM"%string;
     roll_3m_quantity := q |}.

(** Drug 1 on concession in months 0 and 2 only; drug 2 in months 8, 9. *)
Definition two_runs : list ncso_row :=
  [ncso 1 0; ncso 1 2; ncso 2 8; ncso 2 9].

(** Drug 1 on concession in the last month of the range, drug 2 in the
    first. *)
Definition adjacent_drugs : list ncso_row := [ncso 1 9; ncso 2 0].

(** Drug 1 on concession in months 3 and 4, then in month 6; month 9 is
    the last month of the data. *)
Definition ends_three_before_max : list ncso_row :=
  [ncso 1 3; ncso 1 4; ncso 1 6; ncso 2 9].

Definition dense_of (t : list ncso_row) : list flag_row :=
  match timeline t with Some d => d | None => [] end.

(** One episode of drug 1, months 3 to 4. *)
Definition one_episode : list episode := [mk_episode 1 2 3 4].

(** Prices of drug 1 for months 0 to 8, interleaved with a row of
    another drug: 100 pence before the concession, 110 after. *)
Definition steady_prices : list tariff_row :=
  [mk_tariff 1 0 100; mk_tariff 1 1 100; mk_tariff 2 5 7;
   mk_tariff 1 2 100; mk_tariff 1 3 90; mk_tariff 1 4 90;
   mk_tariff 1 5 110; mk_tariff 1 6 110; mk_tariff 1 7 110;
   mk_tariff 1 8 120]%Q.

(** The same drug priced at zero before the concession. *)
Definition zero_pre_prices : list tariff_row :=
  [mk_tariff 1 0 0; mk_tariff 1 1 0; mk_tariff 1 2 0;
   mk_tariff 1 3 90; mk_tariff 1 4 90;
   mk_tariff 1 5 110; mk_tariff 1 6 110; mk_tariff 1 7 110]%Q.

(** A price series that starts only one month before the concession. *)
Definition late_prices : list tariff_row :=
  [mk_tariff 1 2 100; mk_tariff 1 3 90; mk_tariff 1 4 90;
   mk_tariff 1 5 110; mk_tariff 1 6 110; mk_tariff 1 7 110]%Q.

(** One drug priced 10, 20, 90, 40 over four months. *)
Definition uneven_prices : list tariff_row :=
  [mk_tariff 3 0 10; mk_tariff 3 1 20; mk_tariff 3 2 90;
   mk_tariff 3 3 40]%Q.

(** Two drugs, drug 7 priced 10, 20, 30, 40 over four months. *)
Definition four_prices : list tariff_row :=
  [mk_tariff 7 0 10; mk_tariff 9 0 5; mk_tariff 7 1 20;
   mk_tariff 7 2 30; mk_tariff 9 1 6; mk_tariff 7 3 40]%Q.

Definition quantities : list rx_row := [mk_rx 5 1000; mk_rx 6 1000]%Q.






(** The row of [dates_df_merge] for [one_episode]: the pre-concession
    price row is the one dated month 2, the post-concession price row
    the one dated month 7. *)
Definition steady_joined : joined_row :=
  join_row ((mk_episode 1 2 3 4, nth_error (priced steady_prices) 3),
            nth_error (priced steady_prices) 8).

Definition zero_joined : joined_row :=
  join_row ((mk_episode 1 2 3 4, nth_error (priced zero_pre_prices) 2),
            nth_error (priced zero_pre_prices) 7).

Definition late_joined : joined_row :=
  join_row ((mk_episode 1 2 3 4, nth_error (priced late_prices) 0),
            nth_error (priced late_prices) 5).

(** A price series that starts with the month of the concession. *)
Definition no_prior_prices : list tariff_row :=
  [mk_tariff 1 3 90; mk_tariff 1 4 90;
   mk_tariff 1 5 110; mk_tariff 1 6 110; mk_tariff 1 7 110]%Q.

Definition no_prior_joined : joined_row :=
  join_row ((mk_episode 1 2 3 4, None),
            nth_error (priced no_prior_prices) 4).

(** A quantity row of month 5 whose drug code is null. *)
Definition null_code_quantity : rx_row :=
  {| date_3m_start := 5; rx_bnf_code := None; roll_3m_quantity := 1000 |}.

Definition mk_impact (j : joined_row) (r : rx_row) : impact_row :=
  {| matched := Some j; rx := r;
     additional_cost :=
       additional_cost_of (Fin (roll_3m_quantity r)) (j_unit_qty j)
                          (post_pc_price j) (pre_pc_price j) |}.

End Examples.

(** ** Facts about the frame operations *)

Module FrameFacts.
Import Frame.

Section SortFacts.
Context {A : Type} (leb : A -> A -> bool).

Lemma insert_perm (x : A) (l : list A) :
  Permutation (insert leb x l) (x :: l).
Proof.
  induction l as [|y t IH]; simpl.
  - reflexivity.
  - destruct (leb x y).
    + reflexivity.
    + rewrite IH. apply perm_swap.
Qed.

Lemma sort_perm (l : list A) : Permutation (sort leb l) l.
Proof.
  induction l as [|x t IH]; simpl.
  - constructor.
  - unfold sort in IH. rewrite insert_perm. now constructor.
Qed.

Lemma sort_In (l : list A) (x : A) : In x (sort leb l) <-> In x l.
Proof.
  split; apply Permutation_in; [|symmetry]; apply sort_perm.
Qed.

Hypothesis leb_total : forall x y, leb x y = true \/ leb y x = true.
Hypothesis leb_trans :
  forall x y z, leb x y = true -> leb y z = true -> leb x z = true.
Hypothesis leb_antisym :
  forall x y, leb x y = true -> leb y x = true -> x = y.

Lemma insert_comm (x y : A) (l : list A) :
  insert leb x (insert leb y l) = insert leb y (insert leb x l).
Proof.
  induction l as [|a t IH]; simpl.
  - destruct (leb x y) eqn:Hxy, (leb y x) eqn:Hyx; try reflexivity.
    + now rewrite (leb_antisym x y).
    + destruct (leb_total x y); congruence.
  - destruct (leb y a) eqn:Hya, (leb x a) eqn:Hxa; simpl;
      rewrite ?Hya, ?Hxa.
    + destruct (leb x y) eqn:Hxy, (leb y x) eqn:Hyx; try reflexivity.
      * now rewrite (leb_antisym x y).
      * destruct (leb_total x y); congruence.
    + destruct (leb x y) eqn:Hxy.
      * rewrite (leb_trans x y a) in Hxa by assumption. discriminate.
      * reflexivity.
    + destruct (leb y x) eqn:Hyx.
      * rewrite (leb_trans y x a) in Hya by assumption. discriminate.
      * reflexivity.
    + now rewrite IH.
Qed.

(** Under a total order the sorted list only depends on the contents. *)
Lemma sort_perm_eq (l l' : list A) :
  Permutation l l' -> sort leb l = sort leb l'.
Proof.
  induction 1; simpl.
  - reflexivity.
  - unfold sort in *. now f_equal.
  - apply insert_comm.
  - congruence.
Qed.
End SortFacts.

Lemma Zleb_total (x y : Z) : (x <=? y) = true \/ (y <=? x) = true.
Proof. destruct (Z.leb_spec x y), (Z.leb_spec y x); auto; lia. Qed.

Lemma Zleb_trans (x y z : Z) :
  (x <=? y) = true -> (y <=? z) = true -> (x <=? z) = true.
Proof. rewrite !Z.leb_le. lia. Qed.

Lemma Zleb_antisym (x y : Z) :
  (x <=? y) = true -> (y <=? x) = true -> x = y.
Proof. rewrite !Z.leb_le. lia. Qed.

Lemma unique_sorted_In (l : list Z) (x : Z) :
  In x (unique_sorted l) <-> In x l.
Proof.
  unfold unique_sorted. rewrite sort_In. apply nodup_In.
Qed.

Lemma unique_sorted_NoDup (l : list Z) : NoDup (unique_sorted l).
Proof.
  unfold unique_sorted.
  apply (Permutation_NoDup (l := nodup Z.eq_dec l)).
  - symmetry. apply sort_perm.
  - apply NoDup_nodup.
Qed.

Lemma unique_sorted_ext (l l' : list Z) :
  (forall x, In x l <-> In x l') -> unique_sorted l = unique_sorted l'.
Proof.
  intros H. unfold unique_sorted.
  apply (sort_perm_eq Z.leb Zleb_total Zleb_trans Zleb_antisym).
  apply NoDup_Permutation; try apply NoDup_nodup.
  intros x. rewrite !nodup_In. apply H.
Qed.

Lemma has_duplicates_false (l : list (Z * Z)) :
  has_duplicates l = false <-> NoDup l.
Proof.
  induction l as [|k t IH]; simpl.
  - split; [constructor | reflexivity].
  - rewrite NoDup_cons_iff, <- IH.
    destruct (in_dec pair_eq_dec k t); simpl; intuition congruence.
Qed.

Lemma fold_min_spec (l : list Z) (a : Z) :
  let m := fold_left Z.min l a in
  (m = a \/ In m l) /\ m <= a /\ forall x, In x l -> m <= x.
Proof.
  revert a. induction l as [|y t IH]; intros a; simpl.
  - repeat split; auto; try lia; intros x [].
  - destruct (IH (Z.min a y)) as (Hin & Hle & Hall).
    repeat split.
    + destruct Hin as [Hin|Hin]; [|auto].
      rewrite Hin. destruct (Z.min_spec a y) as [[_ ->]|[_ ->]]; auto.
    + lia.
    + intros x [<-|Hx]; [lia | auto].
Qed.

Lemma fold_max_spec (l : list Z) (a : Z) :
  let m := fold_left Z.max l a in
  (m = a \/ In m l) /\ a <= m /\ forall x, In x l -> x <= m.
Proof.
  revert a. induction l as [|y t IH]; intros a; simpl.
  - repeat split; auto; try lia; intros x [].
  - destruct (IH (Z.max a y)) as (Hin & Hle & Hall).
    repeat split.
    + destruct Hin as [Hin|Hin]; [|auto].
      rewrite Hin. destruct (Z.max_spec a y) as [[_ ->]|[_ ->]]; auto.
    + lia.
    + intros x [<-|Hx]; [lia | auto].
Qed.

Lemma list_min_spec (l : list Z) (lo : Z) :
  list_min l = Some lo <-> In lo l /\ forall x, In x l -> lo <= x.
Proof.
  destruct l as [|a t]; simpl.
  - split; [discriminate | intros [[] _]].
  - pose proof (fold_min_spec t a) as (Hin & Hle & Hall). split.
    + intros [= <-]. split; [destruct Hin as [Hin|Hin]; [left; now rewrite Hin | now right]|].
      intros x [<-|Hx]; auto.
    + intros [Hlo Hlow]. f_equal.
      assert (fold_left Z.min t a <= lo)
        by (destruct Hlo as [<-|Hlo]; auto).
      assert (lo <= fold_left Z.min t a)
        by (apply Hlow; simpl; destruct Hin as [->|Hin]; auto).
      lia.
Qed.

Lemma list_max_spec (l : list Z) (hi : Z) :
  list_max l = Some hi <-> In hi l /\ forall x, In x l -> x <= hi.
Proof.
  destruct l as [|a t]; simpl.
  - split; [discriminate | intros [[] _]].
  - pose proof (fold_max_spec t a) as (Hin & Hle & Hall). split.
    + intros [= <-]. split; [destruct Hin as [Hin|Hin]; [left; now rewrite Hin | now right]|].
      intros x [<-|Hx]; auto.
    + intros [Hhi Hup]. f_equal.
      assert (hi <= fold_left Z.max t a)
        by (destruct Hhi as [<-|Hhi]; auto).
      assert (fold_left Z.max t a <= hi)
        by (apply Hup; simpl; destruct Hin as [->|Hin]; auto).
      lia.
Qed.

Lemma list_min_ext (l l' : list Z) :
  (forall x, In x l <-> In x l') -> list_min l = list_min l'.
Proof.
  intros H. destruct (list_min l) as [lo|] eqn:E.
  - symmetry. apply list_min_spec. apply list_min_spec in E.
    destruct E as [E1 E2]. split; [now apply H|].
    intros x Hx. apply E2. now apply H.
  - destruct l; [|discriminate].
    destruct l' as [|x t]; [reflexivity|].
    destruct (proj2 (H x)); simpl; auto.
Qed.

Lemma list_max_ext (l l' : list Z) :
  (forall x, In x l <-> In x l') -> list_max l = list_max l'.
Proof.
  intros H. destruct (list_max l) as [hi|] eqn:E.
  - symmetry. apply list_max_spec. apply list_max_spec in E.
    destruct E as [E1 E2]. split; [now apply H|].
    intros x Hx. apply E2. now apply H.
  - destruct l; [|discriminate].
    destruct l' as [|x t]; [reflexivity|].
    destruct (proj2 (H x)); simpl; auto.
Qed.

Lemma date_range_In (lo hi m : Z) :
  In m (date_range lo hi) <-> lo <= m <= hi.
Proof.
  unfold date_range. rewrite in_map_iff. split.
  - intros (i & <- & Hi). apply in_seq in Hi. lia.
  - intros H. exists (Z.to_nat (m - lo)). split; [lia|].
    apply in_seq. lia.
Qed.

Lemma date_range_NoDup (lo hi : Z) : NoDup (date_range lo hi).
Proof.
  unfold date_range. apply Finite.Injective_map_NoDup.
  - intros i j. lia.
  - apply seq_NoDup.
Qed.

(** What a left join emits: every output row holds a left row, with a
    right row that matches it, or with null when no right row does. *)
Lemma merge_left_In {L R : Type} (on : L -> R -> bool)
      (left : list L) (right : list R) (x : L) (o : option R) :
  In (x, o) (merge_left on left right) <->
  In x left /\
  match o with
  | Some y => In y right /\ on x y = true
  | None => forall y, In y right -> on x y = false
  end.
Proof.
  unfold merge_left. rewrite in_flat_map. split.
  - intros (x' & Hx' & Hin).
    destruct (filter (on x') right) as [|y0 ms] eqn:E.
    + destruct Hin as [[= <- <-]|[]]. split; [assumption|].
      intros y Hy. destruct (on x' y) eqn:Hon; [|reflexivity].
      assert (In y (filter (on x') right)) by (apply filter_In; auto).
      rewrite E in *. contradiction.
    + apply in_map_iff in Hin. destruct Hin as (y & [= <- <-] & Hy).
      rewrite <- E in Hy. apply filter_In in Hy. tauto.
  - intros [Hx Ho]. exists x. split; [assumption|].
    destruct o as [y|].
    + assert (Hy : In y (filter (on x) right)) by (apply filter_In; tauto).
      destruct (filter (on x) right); [contradiction|].
      apply in_map_iff. eauto.
    + destruct (filter (on x) right) as [|y0 ms] eqn:E; [now left|].
      assert (Hy : In y0 (filter (on x) right)) by (rewrite E; now left).
      apply filter_In in Hy. destruct Hy as [Hy Hon].
      rewrite (Ho y0 Hy) in Hon. discriminate.
Qed.

Lemma merge_left_keeps {L R : Type} (on : L -> R -> bool)
      (left : list L) (right : list R) (x : L) :
  In x left -> exists o, In (x, o) (merge_left on left right).
Proof.
  intros Hx. unfold merge_left.
  destruct (filter (on x) right) as [|y0 ms] eqn:E.
  - exists None. apply in_flat_map. exists x. rewrite E. simpl. auto.
  - exists (Some y0). apply in_flat_map. exists x. rewrite E. simpl. auto.
Qed.

Lemma merge_right_In {L R : Type} (on : L -> R -> bool)
      (left : list L) (right : list R) (o : option L) (y : R) :
  In (o, y) (merge_right on left right) <->
  In y right /\
  match o with
  | Some x => In x left /\ on x y = true
  | None => forall x, In x left -> on x y = false
  end.
Proof.
  unfold merge_right. rewrite in_flat_map. split.
  - intros (y' & Hy' & Hin).
    destruct (filter (fun x => on x y') left) as [|x0 ms] eqn:E.
    + destruct Hin as [[= <- <-]|[]]. split; [assumption|].
      intros x Hx. destruct (on x y') eqn:Hon; [|reflexivity].
      assert (In x (filter (fun x => on x y') left))
        by (apply filter_In; auto).
      rewrite E in *. contradiction.
    + apply in_map_iff in Hin. destruct Hin as (x & [= <- <-] & Hx).
      rewrite <- E in Hx. apply filter_In in Hx. tauto.
  - intros [Hy Ho]. exists y. split; [assumption|].
    destruct o as [x|].
    + assert (Hx : In x (filter (fun x => on x y) left))
        by (apply filter_In; tauto).
      destruct (filter (fun x => on x y) left); [contradiction|].
      apply in_map_iff. eauto.
    + destruct (filter (fun x => on x y) left) as [|x0 ms] eqn:E;
        [now left|].
      assert (Hx : In x0 (filter (fun x => on x y) left))
        by (rewrite E; now left).
      apply filter_In in Hx. destruct Hx as [Hx Hon].
      rewrite (Ho x0 Hx) in Hon. discriminate.
Qed.

Lemma merge_right_keeps {L R : Type} (on : L -> R -> bool)
      (left : list L) (right : list R) (y : R) :
  In y right -> exists o, In (o, y) (merge_right on left right).
Proof.
  intros Hy. unfold merge_right.
  destruct (filter (fun x => on x y) left) as [|x0 ms] eqn:E.
  - exists None. apply in_flat_map. exists y. rewrite E. simpl. auto.
  - exists (Some x0). apply in_flat_map. exists y. rewrite E. simpl. auto.
Qed.

End FrameFacts.

(** ** Facts about the concession timeline *)

Module ConcessionFacts.
Import Frame Concession Reference FrameFacts.

Lemma combine_map_self {A B : Type} (f : A -> B) (l : list A) :
  combine l (map f l) = map (fun x => (x, f x)) l.
Proof. induction l as [|x t IH]; simpl; congruence. Qed.

Lemma NoDup_list_prod {A B : Type} (l : list A) (l' : list B) :
  NoDup l -> NoDup l' -> NoDup (list_prod l l').
Proof.
  intros Hl Hl'. induction Hl as [|x t Hx Ht IH]; simpl.
  - constructor.
  - apply NoDup_app.
    + apply Injective_map_NoDup; [|assumption]. intros a b. congruence.
    + assumption.
    + intros [a b] Hin Hin'. apply in_map_iff in Hin.
      destruct Hin as (y & [= <- <-] & _).
      apply in_prod_iff in Hin'. tauto.
Qed.

Lemma lookup_Some (df : list flag_row) (m v c : Z) :
  lookup df m v = Some c ->
  In {| month := m; vmpp := v; concession_bool := c |} df.
Proof.
  unfold lookup. destruct (find _ df) as [r|] eqn:E; [|discriminate].
  intros [= <-]. apply find_some in E. destruct E as [Hin Hk].
  apply andb_prop in Hk. destruct Hk as [Hm Hv].
  apply Z.eqb_eq in Hm, Hv. subst. now destruct r.
Qed.

Lemma lookup_None (df : list flag_row) (m v : Z) :
  lookup df m v = None -> ~ In (m, v) (map index_key df).
Proof.
  unfold lookup. destruct (find _ df) as [r|] eqn:E; [discriminate|].
  intros _ Hin. apply in_map_iff in Hin. destruct Hin as (r & [= <- <-] & Hr).
  apply (find_none _ _ E) in Hr. rewrite !Z.eqb_refl in Hr. discriminate.
Qed.

Lemma lookup_In (df : list flag_row) (r : flag_row) :
  NoDup (map index_key df) -> In r df ->
  lookup df (month r) (vmpp r) = Some (concession_bool r).
Proof.
  intros Hnd Hr. destruct (lookup df (month r) (vmpp r)) as [c|] eqn:E.
  - apply lookup_Some in E.
    assert (Hinj : forall a b, In a df -> In b df ->
                               index_key a = index_key b -> a = b).
    { clear -Hnd. induction df as [|x t IH]; simpl; [tauto|].
      inversion_clear Hnd as [|? ? Hx Ht].
      intros a b [<-|Ha] [<-|Hb] Hk; auto.
      - destruct Hx. rewrite Hk. now apply in_map.
      - destruct Hx. rewrite <- Hk. now apply in_map. }
    specialize (Hinj _ _ E Hr eq_refl).
    destruct r; simpl in *. congruence.
  - apply lookup_None in E. destruct E.
    apply in_map_iff. now exists r.
Qed.

Lemma dense_rows_keys (df : list flag_row) (lo hi : Z) :
  map index_key (dense_rows df lo hi) =
  list_prod (date_range lo hi) (unique_sorted (map vmpp df)).
Proof.
  unfold dense_rows. induction (date_range lo hi) as [|m t IH]; simpl.
  - reflexivity.
  - rewrite map_app, IH, map_map. reflexivity.
Qed.

Lemma dense_rows_In (df : list flag_row) (lo hi : Z) (r : flag_row) :
  In r (dense_rows df lo hi) <->
  lo <= month r <= hi /\ In (vmpp r) (map vmpp df) /\
  concession_bool r = cell df (month r) (vmpp r).
Proof.
  unfold dense_rows. rewrite in_flat_map. split.
  - intros (m & Hm & Hr). apply in_map_iff in Hr.
    destruct Hr as (v & <- & Hv). simpl.
    rewrite date_range_In in Hm. rewrite unique_sorted_In in Hv. auto.
  - intros (Hm & Hv & Hc). exists (month r). split.
    + now apply date_range_In.
    + apply in_map_iff. exists (vmpp r). split.
      * destruct r; simpl in *. now rewrite Hc.
      * now apply unique_sorted_In.
Qed.

Lemma unstack_Some (df : list flag_row) (w : wide (option Z)) :
  unstack df = Some w ->
  NoDup (map index_key df) /\
  w = {| columns := unique_sorted (map vmpp df);
         rows := map (fun m => (m, map (lookup df m)
                                       (unique_sorted (map vmpp df))))
                     (unique_sorted (map month df)) |}.
Proof.
  unfold unstack.
  destruct (has_duplicates (map index_key df)) eqn:E; [discriminate|].
  intros [= <-]. split; [now apply has_duplicates_false | reflexivity].
Qed.

(** Reshaping, reindexing, filling and stacking leave the full grid of
    months by drugs, each cell holding the input flag or 0. *)
Lemma stack_fillna_asfreq (df : list flag_row) (w : wide (option Z))
      (lo hi : Z) :
  unstack df = Some w ->
  list_min (map month df) = Some lo ->
  list_max (map month df) = Some hi ->
  stack (fillna 0 (asfreq_MS w)) = dense_rows df lo hi.
Proof.
  intros Hw Hlo Hhi. apply unstack_Some in Hw. destruct Hw as [_ ->].
  set (cols := unique_sorted (map vmpp df)).
  set (idx := unique_sorted (map month df)).
  assert (Hidx : forall x, In x idx <-> In x (map month df))
    by (intros x; apply unique_sorted_In).
  unfold asfreq_MS. simpl. rewrite map_map. simpl. rewrite map_id.
  rewrite (list_min_ext idx (map month df) Hidx), Hlo.
  rewrite (list_max_ext idx (map month df) Hidx), Hhi.
  unfold stack, fillna, dense_rows. simpl.
  rewrite !flat_map_concat_map, !map_map. f_equal.
  apply map_ext_in. intros m _. simpl.
  destruct (find _ _) as [r|] eqn:E.
  - apply find_some in E. destruct E as [Hr Hm].
    apply Z.eqb_eq in Hm. apply in_map_iff in Hr.
    destruct Hr as (m' & <- & _). simpl in *. subst m'.
    rewrite map_map, combine_map_self, map_map. reflexivity.
  - rewrite map_map, combine_map_self, map_map. simpl.
    apply map_ext_in. intros v _. f_equal.
    unfold cell. destruct (lookup df m v) as [c|] eqn:El; [|reflexivity].
    apply lookup_Some in El.
    assert (Hin : In m idx)
      by (apply Hidx, in_map_iff; eexists; split; [|exact El]; reflexivity).
    assert (Hrow : In (m, map (lookup df m) cols)
                      (map (fun m0 => (m0, map (lookup df m0) cols)) idx))
      by (apply in_map_iff; now exists m).
    apply (find_none _ _ E) in Hrow. simpl in Hrow.
    rewrite Z.eqb_refl in Hrow. discriminate.
Qed.

Lemma dates_cons_df_perm (df dense : list flag_row) (lo hi : Z) :
  dates_cons_df df = Some dense ->
  list_min (map month df) = Some lo ->
  list_max (map month df) = Some hi ->
  Permutation dense (dense_rows df lo hi).
Proof.
  unfold dates_cons_df. intros Hd Hlo Hhi.
  destruct (unstack df) as [w|] eqn:Hw; [|discriminate].
  injection Hd as <-.
  rewrite (stack_fillna_asfreq df w lo hi Hw Hlo Hhi).
  apply sort_perm.
Qed.

(** The reshape, and with it line 61, fails exactly on a duplicated
    (month, vmpp) pair. *)
Lemma dates_cons_df_None (df : list flag_row) :
  dates_cons_df df = None <-> ~ NoDup (map index_key df).
Proof.
  unfold dates_cons_df, unstack.
  rewrite <- has_duplicates_false.
  destruct (has_duplicates (map index_key df)); simpl; split;
    congruence.
Qed.

(** Line 61 reads its input as a set of rows. *)
Lemma dates_cons_df_ext (df df' : list flag_row) :
  NoDup (map index_key df) -> NoDup (map index_key df') ->
  (forall r, In r df <-> In r df') ->
  dates_cons_df df = dates_cons_df df'.
Proof.
  intros Hnd Hnd' Hset.
  assert (Hmap : forall (f : flag_row -> Z) x,
             In x (map f df) <-> In x (map f df')).
  { intros f x. rewrite !in_map_iff.
    split; intros (r & <- & Hr); exists r; split; auto; now apply Hset. }
  assert (Hlk : forall m v, lookup df m v = lookup df' m v).
  { intros m v. destruct (lookup df m v) as [c|] eqn:E.
    - apply lookup_Some, Hset in E.
      symmetry. exact (lookup_In df' _ Hnd' E).
    - destruct (lookup df' m v) as [c|] eqn:E'; [|reflexivity].
      apply lookup_Some, Hset in E'.
      pose proof (lookup_In df _ Hnd E') as E''. simpl in E''.
      congruence. }
  unfold dates_cons_df, unstack.
  apply has_duplicates_false in Hnd, Hnd'. rewrite Hnd, Hnd'. simpl.
  rewrite (unique_sorted_ext _ _ (Hmap vmpp)).
  rewrite (unique_sorted_ext _ _ (Hmap month)).
  set (C := unique_sorted (map vmpp df')).
  set (I := unique_sorted (map month df')).
  assert (Hrows : map (fun m => (m, map (lookup df m) C)) I =
                  map (fun m => (m, map (lookup df' m) C)) I).
  { apply map_ext. intros m. f_equal. apply map_ext. intros v. apply Hlk. }
  now rewrite Hrows.
Qed.

Lemma select_distinct_In (t : list ncso_row) (r : flag_row) :
  In r (dates_df t) <->
  exists x, In x t /\
            r = {| month := ncso_date x; vmpp := ncso_vmpp x;
                   concession_bool := 1 |}.
Proof.
  unfold dates_df, sort_values_month_vmpp, select_distinct.
  rewrite sort_In, nodup_In, in_map_iff.
  split; intros (x & H1 & H2); exists x; auto.
Qed.

Lemma dates_df_NoDup (t : list ncso_row) :
  NoDup (map index_key (dates_df t)).
Proof.
  apply NoDup_map_NoDup_ForallPairs.
  - intros a b Ha Hb Hk.
    apply select_distinct_In in Ha, Hb.
    destruct Ha as (x & _ & ->), Hb as (y & _ & ->).
    unfold index_key in Hk. simpl in Hk. congruence.
  - unfold dates_df, sort_values_month_vmpp, select_distinct.
    eapply Permutation_NoDup; [symmetry; apply sort_perm|].
    apply NoDup_nodup.
Qed.

End ConcessionFacts.

(** ** Properties of the timeline builder and of the episode extractor *)

Module ConcessionSpec.
Import Frame Concession Reference Examples FrameFacts ConcessionFacts.

(** The grid shape of line 61's result, shared by the properties below. *)
Lemma dense_grid (df dense : list flag_row) (lo hi : Z) :
  dates_cons_df df = Some dense ->
  list_min (map month df) = Some lo ->
  list_max (map month df) = Some hi ->
  (forall v m, In v (map vmpp df) -> lo <= m <= hi ->
               count_rows v m dense = 1%nat)
  /\ (forall r, In r dense ->
                In (vmpp r) (map vmpp df) /\ lo <= month r <= hi)
  /\ (forall r, In r dense -> ~ In (index_key r) (map index_key df) ->
                concession_bool r = 0)
  /\ (forall r, In r df -> In r dense).
Proof.
  intros Hd Hlo Hhi.
  pose proof (dates_cons_df_perm df dense lo hi Hd Hlo Hhi) as P.
  assert (Hnd : NoDup (map index_key df)).
  { unfold dates_cons_df in Hd.
    destruct (unstack df) as [w|] eqn:Hw; [|discriminate].
    now apply unstack_Some in Hw. }
  repeat split.
  - intros v m Hv Hm. unfold count_rows.
    rewrite (proj1 (Permutation_count_occ pair_eq_dec _ _)
                   (Permutation_map index_key P)).
    rewrite dense_rows_keys.
    apply NoDup_count_occ'.
    + apply NoDup_list_prod;
        [apply date_range_NoDup | apply unique_sorted_NoDup].
    + apply in_prod_iff. split.
      * now apply date_range_In.
      * now apply unique_sorted_In.
  - apply (Permutation_in _ P), dense_rows_In in H. tauto.
  - apply (Permutation_in _ P), dense_rows_In in H. tauto.
  - apply (Permutation_in _ P), dense_rows_In in H. tauto.
  - intros r Hr Hk. apply (Permutation_in _ P), dense_rows_In in Hr.
    destruct Hr as (_ & _ & ->). unfold cell.
    destruct (lookup df (month r) (vmpp r)) as [c|] eqn:E; [|reflexivity].
    destruct Hk. apply lookup_Some in E.
    apply in_map_iff. eexists. split; [|exact E]. reflexivity.
  - intros r Hr. apply (Permutation_in _ (Permutation_sym P)).
    apply dense_rows_In.
    apply list_min_spec in Hlo. apply list_max_spec in Hhi.
    assert (In (month r) (map month df)) by now apply in_map.
    repeat split.
    + now apply Hlo.
    + now apply Hhi.
    + now apply in_map.
    + unfold cell. now rewrite (lookup_In df r Hnd Hr).
Qed.

(** C10.  Whenever line 61 returns a dense timeline, that timeline holds,
    for every drug of the input and every calendar month between the
    least and the greatest month of the whole input, exactly one row;
    it holds no row for another drug or another month; a row whose
    (month, drug) pair the input lacks carries the flag 0; and every
    input row is kept as it is. *)
Theorem dense_timeline_one_row_per_month
        (df dense : list flag_row) (lo hi : Z) :
  dates_cons_df df = Some dense ->
  list_min (map month df) = Some lo ->
  list_max (map month df) = Some hi ->
  (forall v m, In v (map vmpp df) -> lo <= m <= hi ->
               count_rows v m dense = 1%nat)
  /\ (forall r, In r dense ->
                In (vmpp r) (map vmpp df) /\ lo <= month r <= hi)
  /\ (forall r, In r dense -> ~ In (index_key r) (map index_key df) ->
                concession_bool r = 0)
  /\ (forall r, In r df -> In r dense).
Proof. exact (dense_grid df dense lo hi). Qed.

Lemma dense_timeline_one_row_per_month_witness :
  (forall v m, In v (map vmpp (dates_df two_runs)) -> 0 <= m <= 9 ->
               count_rows v m (dense_of two_runs) = 1%nat)
  /\ (forall r, In r (dense_of two_runs) ->
                In (vmpp r) (map vmpp (dates_df two_runs))
                /\ 0 <= month r <= 9)
  /\ (forall r, In r (dense_of two_runs) ->
                ~ In (index_key r) (map index_key (dates_df two_runs)) ->
                concession_bool r = 0)
  /\ (forall r, In r (dates_df two_runs) -> In r (dense_of two_runs)).
Proof.
  apply (dense_timeline_one_row_per_month
           (dates_df two_runs) (dense_of two_runs) 0 9);
    vm_compute; reflexivity.
Defined.

(** C8, as the code has it.  The timeline builder of line 61 does not
    deduplicate: it fails on a frame in which a (month, drug) pair stands
    on two rows, and on no other frame.  The deduplication is the
    query's: from a concession table with any number of repeated rows,
    the DISTINCT of lines 45-48 leaves one row per pair, so that query
    and builder together always return a dense timeline; it holds
    exactly one row, flagged 1, for every pair of the table, and it is
    the same timeline for every table with the same set of rows,
    whatever their order and multiplicity. *)
Theorem builder_needs_distinct_pairs :
  (forall df : list flag_row,
      dates_cons_df df = None <-> ~ NoDup (map index_key df))
  /\ forall t : list ncso_row,
      exists dense,
        timeline t = Some dense
        /\ (forall x, In x t ->
                      count_rows (ncso_vmpp x) (ncso_date x) dense = 1%nat
                      /\ In {| month := ncso_date x; vmpp := ncso_vmpp x;
                               concession_bool := 1 |} dense)
        /\ (forall t', (forall x, In x t <-> In x t') ->
                       timeline t' = Some dense).
Proof.
  split; [intros df; apply dates_cons_df_None|].
  intros t. unfold timeline.
  destruct (dates_cons_df (dates_df t)) as [dense|] eqn:Hd.
  2:{ apply dates_cons_df_None in Hd. destruct Hd. apply dates_df_NoDup. }
  exists dense. split; [reflexivity|]. split.
  - intros x Hx.
    assert (Hr : In {| month := ncso_date x; vmpp := ncso_vmpp x;
                       concession_bool := 1 |} (dates_df t))
      by (apply select_distinct_In; now exists x).
    destruct (list_min (map month (dates_df t))) as [lo|] eqn:Hlo.
    2:{ destruct (dates_df t); [destruct Hr | discriminate]. }
    destruct (list_max (map month (dates_df t))) as [hi|] eqn:Hhi.
    2:{ destruct (dates_df t); [destruct Hr | discriminate]. }
    destruct (dense_grid _ _ lo hi Hd Hlo Hhi) as (Hcount & _ & _ & Hkeep).
    split; [|now apply Hkeep].
    apply Hcount.
    + apply in_map_iff. eexists. split; [|exact Hr]. reflexivity.
    + apply list_min_spec in Hlo. apply list_max_spec in Hhi.
      assert (In (ncso_date x) (map month (dates_df t)))
        by (apply in_map_iff; eexists; split; [|exact Hr]; reflexivity).
      split; [now apply Hlo | now apply Hhi].
  - intros t' Hset. rewrite <- Hd. apply dates_cons_df_ext.
    + apply dates_df_NoDup.
    + apply dates_df_NoDup.
    + intros r. rewrite !select_distinct_In.
      split; intros (x & Hx & ->); exists x; split; auto; now apply Hset.
Qed.

(** C8, as stated, fails: on the frame whose two rows both carry month 0
    and drug 1, line 61 returns no timeline. *)
Lemma builder_fails_on_repeated_pair :
  ~ (forall df : list flag_row,
        exists dense, dates_cons_df df = Some dense).
Proof.
  intros H. destruct (H [mk_flag 0 1 1; mk_flag 0 1 1]) as [dense Hd].
  discriminate Hd.
Qed.

(** C1.  Drug 1 is on concession in months 0 and 2 and not in month 1:
    two maximal runs of length 1.  Lines 71-78 group by drug and run
    length, so the two runs fall into one group and come out as a single
    episode from month 0 to month 2, where the run-length extraction of
    the specification gives two. *)
Theorem equal_length_runs_are_merged :
  option_map episodes (timeline two_runs)
  = Some [mk_episode 1 1 0 2; mk_episode 2 2 8 9]
  /\ option_map pc_summary_df (timeline two_runs)
     = Some [mk_episode 1 1 0 2]
  /\ option_map run_length_episodes (timeline two_runs)
     = Some [mk_episode 1 1 0 0; mk_episode 1 1 2 2; mk_episode 2 2 8 9].
Proof. repeat split; vm_compute; reflexivity. Qed.

(** The run identifier of lines 72-73 is counted down the whole column,
    so a run at the end of one drug's series and a run at the start of
    the next drug's series share it: each gets the joint length 2 as its
    [Consecutive], though either run is one month long. *)
Lemma run_lengths_span_drugs :
  option_map episodes (timeline adjacent_drugs)
  = Some [mk_episode 1 2 9 9; mk_episode 2 2 0 0]
  /\ option_map run_length_episodes (timeline adjacent_drugs)
     = Some [mk_episode 1 1 9 9; mk_episode 2 1 0 0].
Proof. repeat split; vm_compute; reflexivity. Qed.

(** C3, as the code has it.  With [mx] the greatest month of the dense
    timeline, line 78 keeps an extracted episode exactly when its last
    month lies strictly before [mx - 3]. *)
Theorem validity_filter_is_strict
        (dense : list flag_row) (mx : Z) (e : episode) :
  list_max (map month dense) = Some mx ->
  (In e (pc_summary_df dense) <->
   In e (episodes dense) /\ last_month e + 3 < mx).
Proof.
  intros Hmx. unfold pc_summary_df, query_last_month, max_date.
  rewrite Hmx. simpl. rewrite filter_In, Z.ltb_lt. intuition lia.
Qed.

Lemma validity_filter_is_strict_witness :
  In (mk_episode 1 2 3 4) (pc_summary_df (dense_of ends_three_before_max))
  <-> In (mk_episode 1 2 3 4) (episodes (dense_of ends_three_before_max))
      /\ last_month (mk_episode 1 2 3 4) + 3 < 9.
Proof.
  apply (validity_filter_is_strict (dense_of ends_three_before_max) 9
                                   (mk_episode 1 2 3 4)).
  reflexivity.
Defined.

(** C3, as stated, fails: in a timeline whose greatest month is 9 the
    episode of drug 1 in month 6 satisfies 6 + 3 <= 9 and is dropped. *)
Lemma episode_three_months_before_max_is_dropped :
  ~ (forall (dense : list flag_row) (mx : Z) (e : episode),
        list_max (map month dense) = Some mx ->
        In e (episodes dense) ->
        (In e (pc_summary_df dense) <-> last_month e + 3 <= mx)).
Proof.
  intros H.
  specialize (H (dense_of ends_three_before_max) 9 (mk_episode 1 1 6 6)
                eq_refl).
  assert (Hin : In (mk_episode 1 1 6 6)
                   (episodes (dense_of ends_three_before_max)))
    by (vm_compute; auto).
  apply H in Hin. destruct Hin as [_ Hin].
  assert (Hle : last_month (mk_episode 1 1 6 6) + 3 <= 9)
    by (simpl; lia).
  apply Hin in Hle. vm_compute in Hle.
  destruct Hle as [Hle|[]]. discriminate.
Qed.

End ConcessionSpec.

(** ** Facts about the rolling price and the episode-price join *)

Module TariffFacts.
Import Frame Float Concession Tariff Reference FrameFacts.

Lemma nth_map_seq {B : Type} (g : nat -> B) (n i : nat) (d : B) :
  (i < n)%nat -> nth i (map g (seq 0 n)) d = g i.
Proof.
  intros Hi. rewrite (nth_indep _ d (g 0%nat))
    by (now rewrite length_map, length_seq).
  rewrite map_nth, seq_nth by assumption. reflexivity.
Qed.

Lemma rev_eq_cons {B : Type} (l : list B) (x : B) (t : list B) :
  rev l = x :: t -> l = rev t ++ [x].
Proof.
  intros H. rewrite <- (rev_involutive l), H. reflexivity.
Qed.

(** The rolling value at a position: the mean of the observation there
    and of the two before it, null when fewer than two precede it. *)
Lemma rolling_mean_3_at (P1 : list Q) (p : Q) (P2 : list Q) :
  nth (length P1) (rolling_mean 3 3 (P1 ++ p :: P2)) NaN =
  match rev P1 with
  | b :: a :: _ => Fin (mean [a; b; p])
  | _ => NaN
  end.
Proof.
  unfold rolling_mean.
  rewrite nth_map_seq by (rewrite length_app; simpl; lia).
  rewrite firstn_app, firstn_all2 by lia.
  replace (S (length P1) - length P1)%nat with 1%nat by lia.
  simpl firstn. unfold lastn.
  destruct (rev P1) as [|b [|a rest]] eqn:E.
  - rewrite <- (rev_involutive P1), E. reflexivity.
  - apply rev_eq_cons in E. subst P1. reflexivity.
  - apply rev_eq_cons in E. simpl in E. rewrite <- app_assoc in E.
    simpl in E. subst P1. rewrite <- app_assoc. simpl app.
    rewrite length_app. simpl length.
    replace (length (rev rest) + 3 - 3)%nat with (length (rev rest)) by lia.
    rewrite skipn_app, skipn_all, Nat.sub_diag. reflexivity.
Qed.

Lemma group_app (v : Z) (l1 l2 : list tariff_row) :
  group v (l1 ++ l2) = group v l1 ++ group v l2.
Proof. apply filter_app. Qed.

Lemma group_split (l1 : list tariff_row) (r : tariff_row)
      (l2 : list tariff_row) :
  group (t_vmpp r) (l1 ++ r :: l2) =
  group (t_vmpp r) l1 ++ r :: group (t_vmpp r) l2.
Proof.
  rewrite group_app. unfold group at 2. simpl.
  unfold same_vmpp at 1. now rewrite Z.eqb_refl.
Qed.

(** The rolling price of a row: the mean of its price and of the prices
    of the two rows of the same drug that precede it in the frame. *)
Lemma three_month_price_at (l1 : list tariff_row) (r : tariff_row)
      (l2 : list tariff_row) :
  nth (length l1) (groupby_transform (rolling_mean 3 3) (l1 ++ r :: l2)) NaN =
  match rev (map price_pence (group (t_vmpp r) l1)) with
  | b :: a :: _ => Fin (mean [a; b; price_pence r])
  | _ => NaN
  end.
Proof.
  unfold groupby_transform.
  rewrite nth_map_seq by (rewrite length_app; simpl; lia).
  rewrite nth_error_app2, Nat.sub_diag by lia. simpl nth_error.
  rewrite firstn_app, Nat.sub_diag, firstn_all. simpl firstn.
  rewrite app_nil_r.
  rewrite group_split, map_app. simpl map.
  rewrite <- (length_map price_pence (group (t_vmpp r) l1)).
  apply rolling_mean_3_at.
Qed.

Lemma length_groupby_transform (f : list Q -> list float)
      (df : list tariff_row) :
  length (groupby_transform f df) = length df.
Proof. unfold groupby_transform. now rewrite length_map, length_seq. Qed.

Lemma map_fst_combine {B C : Type} (l : list B) (l' : list C) :
  length l = length l' -> map fst (combine l l') = l.
Proof.
  revert l'. induction l as [|x t IH]; intros [|y t']; simpl;
    try discriminate; try reflexivity.
  intros [= H]. now rewrite IH.
Qed.

Lemma map_snd_combine {B C : Type} (l : list B) (l' : list C) :
  length l = length l' -> map snd (combine l l') = l'.
Proof.
  revert l'. induction l as [|x t IH]; intros [|y t']; simpl;
    try discriminate; try reflexivity.
  intros [= H]. now rewrite IH.
Qed.

Lemma priced_src (df : list tariff_row) : map src (priced df) = df.
Proof.
  unfold priced. rewrite map_map. simpl.
  apply map_fst_combine. now rewrite length_groupby_transform.
Qed.

Lemma priced_three_month_price (df : list tariff_row) :
  map three_month_price (priced df) =
  groupby_transform (rolling_mean 3 3) df.
Proof.
  unfold priced. rewrite map_map. simpl.
  apply map_snd_combine. now rewrite length_groupby_transform.
Qed.

(** Every row of the priced frame sits on a tariff row, with the two
    shifted dates and the rolling price of that row. *)
Lemma priced_In (df : list tariff_row) (pr : priced_row) :
  In pr (priced df) ->
  exists l1 l2,
    df = l1 ++ src pr :: l2
    /\ pre_month pr = date (src pr) + 1
    /\ post_month pr = date (src pr) + (-3)
    /\ three_month_price pr =
       match rev (map price_pence (group (t_vmpp (src pr)) l1)) with
       | b :: a :: _ => Fin (mean [a; b; price_pence (src pr)])
       | _ => NaN
       end.
Proof.
  unfold priced. intros Hin. apply in_map_iff in Hin.
  destruct Hin as ([r x] & <- & Hin). simpl.
  destruct (In_nth _ _ (r, NaN) Hin) as (i & Hi & Hnth).
  pose proof (length_groupby_transform (rolling_mean 3 3) df) as Hlen.
  rewrite combine_nth in Hnth by now rewrite Hlen.
  injection Hnth as Hr Hx.
  rewrite length_combine, Hlen, Nat.min_id in Hi.
  destruct (nth_split df r Hi) as (l1 & l2 & Hdf & Hl1).
  rewrite Hr in Hdf. exists l1, l2. repeat split; try assumption.
  rewrite <- Hx, <- Hl1. rewrite Hdf at 1.
  apply three_month_price_at.
Qed.













(** The rows of [dates_df_merge]: one per episode and per pair of price
    rows found by the two merges, null standing for a merge that found
    none. *)
Lemma dates_df_merge_In (pc : list episode) (df : list tariff_row)
      (j : joined_row) :
  In j (dates_df_merge pc df) <->
  exists e pre post,
    j = join_row ((e, pre), post)
    /\ In e pc
    /\ match pre with
       | Some r => In r (priced df) /\ on_pre e r = true
       | None => forall r, In r (priced df) -> on_pre e r = false
       end
    /\ match post with
       | Some r => In r (priced df) /\ on_post e r = true
       | None => forall r, In r (priced df) -> on_post e r = false
       end.
Proof.
  unfold dates_df_merge. rewrite !sort_In, in_map_iff. split.
  - intros ([[e pre] post] & <- & Hin).
    apply merge_left_In in Hin. destruct Hin as [Hin Hpost].
    apply merge_left_In in Hin. destruct Hin as [He Hpre].
    exists e, pre, post. auto.
  - intros (e & pre & post & -> & He & Hpre & Hpost).
    exists ((e, pre), post). split; [reflexivity|].
    apply merge_left_In. split; [|exact Hpost].
    apply merge_left_In. auto.
Qed.

End TariffFacts.

(** ** Properties of the rolling price and of the episode-price join *)

Module TariffSpec.
Import Frame Float Concession Tariff Impact Reference Examples.
Import FrameFacts TariffFacts.

Lemma fdiv_nan_r (x : float) : fdiv x NaN = NaN.
Proof. now destruct x. Qed.

Lemma fsub_nan_r (x : float) : fsub x NaN = NaN.
Proof. now destruct x. Qed.

Lemma fmul_nan_r (x : float) : fmul x NaN = NaN.
Proof. now destruct x. Qed.

Lemma perc_difference_of_null (post pre : float) :
  pre = NaN \/ post = NaN -> perc_difference_of post pre = NaN.
Proof.
  unfold perc_difference_of. intros [-> | ->].
  - now rewrite fdiv_nan_r.
  - reflexivity.
Qed.

(** C2, as the code has it.  Every row of [dates_df_merge] carries, as
    its merge date for the quantity data, the month after the episode's
    last month. *)
Theorem rx_merge_date_is_month_after_last
        (pc : list episode) (df : list tariff_row) (j : joined_row) :
  In j (dates_df_merge pc df) ->
  rx_merge_date j = last_month (ep j) + 1.
Proof.
  intros Hj. apply dates_df_merge_In in Hj.
  destruct Hj as (e & pre & post & -> & _). reflexivity.
Qed.

Lemma rx_merge_date_is_month_after_last_witness :
  rx_merge_date steady_joined = last_month (ep steady_joined) + 1.
Proof.
  apply (rx_merge_date_is_month_after_last one_episode steady_prices).
  vm_compute. left. reflexivity.
Defined.

(** C2, as stated, fails: the episode of months 3 to 4 gets the merge
    date 5, not 4 + 4 = 8. *)
Lemma rx_merge_date_is_not_four_months_after :
  ~ (forall (pc : list episode) (df : list tariff_row) (j : joined_row),
        In j (dates_df_merge pc df) ->
        rx_merge_date j = last_month (ep j) + 4).
Proof.
  intros H.
  assert (Hin : In steady_joined (dates_df_merge one_episode steady_prices))
    by (vm_compute; left; reflexivity).
  apply H in Hin. vm_compute in Hin. discriminate.
Qed.

(** C4.  The rolling price of a tariff row is a third of the sum of its
    own price and of the prices of the two rows of the same drug before
    it, and null when the drug has fewer than two rows before it; rows of
    other drugs in between do not count.  On the prices 10, 20, 30, 40
    the rolling values are null, null, 20, 30; on 10, 20, 90, 40 they
    are null, null, 40, 50. *)
Theorem three_month_price_needs_three_observations :
  (forall (l1 : list tariff_row) (r : tariff_row) (l2 : list tariff_row),
      feq (nth (length l1)
               (map three_month_price (priced (l1 ++ r :: l2))) NaN)
          match rev (map price_pence (group (t_vmpp r) l1)) with
          | b :: a :: _ => Fin ((a + b + price_pence r) / 3)
          | _ => NaN
          end)
  /\ Forall2 feq (rolling_mean 3 3 [10; 20; 30; 40]%Q)
             [NaN; NaN; Fin 20; Fin 30]
  /\ Forall2 feq (map three_month_price (priced four_prices))
             [NaN; NaN; NaN; Fin 20; NaN; Fin 30]
  /\ Forall2 feq (map three_month_price (priced uneven_prices))
             [NaN; NaN; Fin 40; Fin 50].
Proof.
  split; [|split; [|split]].
  - intros l1 r l2. rewrite priced_three_month_price, three_month_price_at.
    destruct (rev (map price_pence (group (t_vmpp r) l1))) as [|b [|a rest]];
      simpl; try exact I.
    unfold mean. simpl. field.
  - vm_compute. repeat constructor.
  - vm_compute. repeat constructor.
  - vm_compute. repeat constructor.
Qed.



(** C6.  Every episode handed to the join has at least one row in
    [dates_df_merge].  When no price row with a rolling price stands at
    the episode's pre-concession key, each of its rows has a null
    pre-concession price and a null percentage difference; likewise for
    the post-concession key. *)
Theorem episode_kept_with_null_prices
        (pc : list episode) (df : list tariff_row) (e : episode) :
  In e pc ->
  (exists j, In j (dates_df_merge pc df) /\ ep j = e)
  /\ forall j, In j (dates_df_merge pc df) -> ep j = e ->
       ((forall r, In r (priced df) -> on_pre e r = true ->
                   three_month_price r = NaN) ->
        pre_pc_price j = NaN /\ perc_difference j = NaN)
       /\ ((forall r, In r (priced df) -> on_post e r = true ->
                      three_month_price r = NaN) ->
           post_pc_price j = NaN /\ perc_difference j = NaN).
Proof.
  intros He. split.
  - destruct (merge_left_keeps on_pre pc (priced df) e He) as [pre Hpre].
    destruct (merge_left_keeps (fun x => on_post (fst x)) _ (priced df)
                               _ Hpre) as [post Hpost].
    exists (join_row ((e, pre), post)). split; [|reflexivity].
    unfold dates_df_merge. rewrite !sort_In. now apply in_map.
  - intros j Hj Hep. apply dates_df_merge_In in Hj.
    destruct Hj as (e' & pre & post & -> & _ & Hpre & Hpost).
    simpl in Hep. subst e'. simpl. split; intros Hnull.
    + assert (price_of pre = NaN) as ->.
      { destruct pre as [r|]; [|reflexivity].
        simpl. apply Hnull; tauto. }
      split; [reflexivity|]. apply perc_difference_of_null. now left.
    + assert (price_of post = NaN) as ->.
      { destruct post as [r|]; [|reflexivity].
        simpl. apply Hnull; tauto. }
      split; [reflexivity|]. apply perc_difference_of_null. now right.
Qed.

Lemma episode_kept_with_null_prices_witness :
  (exists j, In j (dates_df_merge one_episode late_prices)
             /\ ep j = mk_episode 1 2 3 4)
  /\ forall j, In j (dates_df_merge one_episode late_prices) ->
               ep j = mk_episode 1 2 3 4 ->
       ((forall r, In r (priced late_prices) ->
                   on_pre (mk_episode 1 2 3 4) r = true ->
                   three_month_price r = NaN) ->
        pre_pc_price j = NaN /\ perc_difference j = NaN)
       /\ ((forall r, In r (priced late_prices) ->
                      on_post (mk_episode 1 2 3 4) r = true ->
                      three_month_price r = NaN) ->
           post_pc_price j = NaN /\ perc_difference j = NaN).
Proof.
  apply (episode_kept_with_null_prices one_episode late_prices
                                       (mk_episode 1 2 3 4)).
  simpl. left. reflexivity.
Defined.

End TariffSpec.

(** ** Properties of the price arithmetic and of the cost impact join *)

Module ImpactSpec.
Import Frame Float Concession Tariff Impact Reference Examples.
Import FrameFacts TariffFacts TariffSpec.

Lemma is_zero_iff (a : Q) : is_zero a = true <-> a == 0.
Proof.
  unfold is_zero, Qeq. simpl. rewrite Z.eqb_eq. lia.
Qed.

Lemma on_rx_true (j : joined_row) (r : rx_row) :
  on_rx j r = true <->
  j_bnf_code j = rx_bnf_code r
  /\ rx_merge_date j = date_3m_start r.
Proof.
  unfold on_rx. rewrite andb_true_iff, Z.eqb_eq.
  destruct (j_bnf_code j) as [a|], (rx_bnf_code r) as [b|].
  - rewrite String.eqb_eq. split; intros [H1 H2]; split; congruence.
  - split; intros [H1 H2]; discriminate.
  - split; intros [H1 H2]; discriminate.
  - tauto.
Qed.

(** The rows of [rx_df_merge]: one per quantity row and matching episode
    row, or one with a null episode side when no episode row matches. *)
Lemma rx_df_merge_In (dm : list joined_row) (rxs : list rx_row)
      (i : impact_row) :
  In i (rx_df_merge dm rxs) <->
  In (rx i) rxs
  /\ additional_cost i =
     additional_cost_of (Fin (roll_3m_quantity (rx i)))
                        (col_unit_qty (matched i))
                        (col_post_pc_price (matched i))
                        (col_pre_pc_price (matched i))
  /\ match matched i with
     | Some j => In j dm /\ on_rx j (rx i) = true
     | None => forall j, In j dm -> on_rx j (rx i) = false
     end.
Proof.
  unfold rx_df_merge. rewrite in_map_iff. split.
  - intros ([o r] & <- & Hin). apply merge_right_In in Hin. simpl. tauto.
  - intros (Hr & Hc & Hm). exists (matched i, rx i). split.
    + destruct i. simpl in *. now rewrite Hc.
    + apply merge_right_In. tauto.
Qed.

Lemma additional_cost_of_null (q u post pre : float) :
  pre = NaN \/ post = NaN -> additional_cost_of q u post pre = NaN.
Proof.
  unfold additional_cost_of. intros [-> | ->].
  - now rewrite fsub_nan_r, fmul_nan_r.
  - simpl. apply fmul_nan_r.
Qed.

(** C7, as the code has it.  Lines 125 and 174 are total: no input makes
    them fail.  A null price makes the percentage difference and the
    additional cost null.  A zero pre-concession price beside a nonzero
    post-concession price makes the percentage difference an infinity
    of the post-concession price's sign (null only when that price is
    zero too), and leaves the additional cost a number whenever the pack
    quantity is not zero. *)
Theorem price_arithmetic_on_null_and_zero
        (pc : list episode) (df : list tariff_row) (rxs : list rx_row) :
  (forall j, In j (dates_df_merge pc df) ->
     (pre_pc_price j = NaN \/ post_pc_price j = NaN ->
      perc_difference j = NaN)
     /\ (forall a b, pre_pc_price j = Fin a -> post_pc_price j = Fin b ->
                     a == 0 ->
                     perc_difference j =
                     if is_zero b then NaN else inf_of_sign (is_pos b)))
  /\ (forall i j, In i (rx_df_merge (dates_df_merge pc df) rxs) ->
        matched i = Some j ->
        (pre_pc_price j = NaN \/ post_pc_price j = NaN ->
         additional_cost i = NaN)
        /\ (forall a b u, pre_pc_price j = Fin a ->
                          post_pc_price j = Fin b ->
                          j_unit_qty j = Fin u -> ~ u == 0 ->
                          additional_cost i =
                          Fin ((1 # 100) * (roll_3m_quantity (rx i) / u)
                               * (b + - a)))).
Proof.
  split.
  - intros j Hj. apply dates_df_merge_In in Hj.
    destruct Hj as (e & pre & post & -> & _). simpl. split.
    + intros H. apply perc_difference_of_null. tauto.
    + intros a b -> -> Ha. apply is_zero_iff in Ha.
      unfold perc_difference_of. simpl. rewrite Ha.
      destruct (is_zero b); [reflexivity|].
      now destruct (is_pos b).
  - intros i j Hi Hm. apply rx_df_merge_In in Hi.
    destruct Hi as (_ & -> & _). rewrite Hm. simpl. split.
    + apply additional_cost_of_null.
    + intros a b u -> -> -> Hu.
      unfold additional_cost_of. simpl.
      destruct (is_zero u) eqn:E; [|reflexivity].
      apply is_zero_iff in E. contradiction.
Qed.

Lemma price_arithmetic_on_null_and_zero_witness :
  perc_difference zero_joined = PInf
  /\ additional_cost (mk_impact zero_joined (mk_rx 5 1000))
     = Fin ((1 # 100) * (1000 / 1) * ((330 # 3) + - (0 # 3))).
Proof.
  destruct (price_arithmetic_on_null_and_zero
              one_episode zero_pre_prices quantities) as [Hperc Hcost].
  split.
  - apply (proj2 (Hperc zero_joined
                        ltac:(vm_compute; left; reflexivity))
                 (0 # 3) (330 # 3)); reflexivity.
  - apply (proj2 (Hcost (mk_impact zero_joined (mk_rx 5 1000)) zero_joined
                        ltac:(vm_compute; left; reflexivity) eq_refl)
                 (0 # 3) (330 # 3) 1%Q); try reflexivity.
    intros H. discriminate H.
Defined.

(** C7, as stated, fails: with the pre-concession price zero and the
    post-concession price 110, the percentage difference is infinite
    and the additional cost is a number; neither is null. *)
Lemma zero_pre_price_is_not_null :
  ~ (forall (i : impact_row) (j : joined_row),
        In i (rx_df_merge (dates_df_merge one_episode zero_pre_prices)
                          quantities) ->
        matched i = Some j ->
        feq (pre_pc_price j) (Fin 0) ->
        isna (perc_difference j) = true
        /\ isna (additional_cost i) = true).
Proof.
  intros H.
  destruct (H (mk_impact zero_joined (mk_rx 5 1000)) zero_joined)
    as [Hperc _].
  - vm_compute. left. reflexivity.
  - reflexivity.
  - vm_compute. reflexivity.
  - vm_compute in Hperc. discriminate.
Qed.

(** C9, as the code has it.  The right join keeps every quantity row.
    Every output row stands on a quantity row and either has no episode
    row with its drug code and window start, and then a null additional
    cost, or carries such an episode row, and then its additional cost
    is 0.01 * (quantity / pack quantity) * (post - pre) in the frame's
    arithmetic, which is null when either price is null. *)
Theorem right_join_keeps_quantity_rows
        (dm : list joined_row) (rxs : list rx_row) :
  (forall r, In r rxs -> exists i, In i (rx_df_merge dm rxs) /\ rx i = r)
  /\ (forall i, In i (rx_df_merge dm rxs) ->
        In (rx i) rxs
        /\ ((matched i = None
             /\ (forall j, In j dm -> on_rx j (rx i) = false)
             /\ additional_cost i = NaN)
            \/ (exists j,
                   matched i = Some j /\ In j dm
                   /\ j_bnf_code j = rx_bnf_code (rx i)
                   /\ rx_merge_date j = date_3m_start (rx i)
                   /\ additional_cost i =
                      fmul (fmul (Fin (1 # 100))
                                 (fdiv (Fin (roll_3m_quantity (rx i)))
                                       (j_unit_qty j)))
                           (fsub (post_pc_price j) (pre_pc_price j))
                   /\ (pre_pc_price j = NaN \/ post_pc_price j = NaN ->
                       additional_cost i = NaN)))).
Proof.
  split.
  - intros r Hr.
    destruct (merge_right_keeps on_rx dm rxs r Hr) as [o Ho].
    eexists. split.
    + unfold rx_df_merge. apply in_map. exact Ho.
    + reflexivity.
  - intros i Hi. apply rx_df_merge_In in Hi.
    destruct Hi as (Hr & Hc & Hm). split; [assumption|].
    destruct (matched i) as [j|] eqn:E.
    + right. exists j. destruct Hm as [Hj Hon].
      apply on_rx_true in Hon. destruct Hon as [Hb Hd].
      repeat split; try assumption.
      intros Hnull. rewrite Hc. now apply additional_cost_of_null.
    + left. repeat split; assumption.
Qed.

(** C9, as stated, fails: the price series starts one month before the
    episode, so the episode row has a null pre-concession price; the
    quantity row of month 5 is joined to it, and is neither a row
    without an episode nor a row with non-null prices. *)
Lemma matched_episode_may_have_null_price :
  ~ (forall i : impact_row,
        In i (rx_df_merge (dates_df_merge one_episode late_prices)
                          quantities) ->
        (matched i = None /\ additional_cost i = NaN)
        \/ (exists j,
               matched i = Some j
               /\ isna (pre_pc_price j) = false
               /\ isna (post_pc_price j) = false
               /\ additional_cost i =
                  fmul (fmul (Fin (1 # 100))
                             (fdiv (Fin (roll_3m_quantity (rx i)))
                                   (j_unit_qty j)))
                       (fsub (post_pc_price j) (pre_pc_price j)))).
Proof.
  intros H.
  destruct (H (mk_impact late_joined (mk_rx 5 1000)))
    as [[Hm _] | (j & Hm & Hpre & _)].
  - vm_compute. left. reflexivity.
  - discriminate Hm.
  - injection Hm as <-. vm_compute in Hpre. discriminate.
Qed.

End ImpactSpec.


(** ** Facts about sorted frames *)

Module OrderFacts.
Import Frame FrameFacts.

Section SortSorted.
Context {A : Type} (leb : A -> A -> bool).
Hypothesis leb_total : forall x y, leb x y = true \/ leb y x = true.
Hypothesis leb_trans :
  forall x y z, leb x y = true -> leb y z = true -> leb x z = true.

Local Abbreviation lebP := (fun a b : A => leb a b = true).

Lemma insert_Forall (P : A -> Prop) (x : A) (l : list A) :
  P x -> Forall P l -> Forall P (insert leb x l).
Proof.
  intros Hx Hl. apply Forall_forall. intros y Hy.
  apply (Permutation_in _ (insert_perm leb x l)) in Hy.
  destruct Hy as [<-|Hy]; [assumption|].
  now apply (proj1 (Forall_forall P l) Hl).
Qed.

Lemma insert_sorted (x : A) (l : list A) :
  StronglySorted lebP l -> StronglySorted lebP (insert leb x l).
Proof.
  induction 1 as [|y t Ht IH Hy]; simpl.
  - repeat constructor.
  - destruct (leb x y) eqn:E.
    + constructor; [now constructor|].
      constructor; [exact E|].
      apply Forall_forall. intros z Hz.
      apply (leb_trans x y z E).
      now apply (proj1 (Forall_forall _ t) Hy).
    + constructor; [assumption|].
      apply insert_Forall; [|assumption].
      destruct (leb_total x y) as [H|H]; [congruence | exact H].
Qed.

Lemma sort_sorted (l : list A) : StronglySorted lebP (sort leb l).
Proof.
  induction l as [|x t IH]; simpl.
  - constructor.
  - now apply insert_sorted.
Qed.
End SortSorted.

Lemma lex_leb_iff (a b : Z * Z) :
  lex_leb a b = true <->
  fst a < fst b \/ (fst a = fst b /\ snd a <= snd b).
Proof.
  unfold lex_leb.
  rewrite orb_true_iff, andb_true_iff, Z.ltb_lt, Z.eqb_eq, Z.leb_le.
  reflexivity.
Qed.

Lemma lex_leb_total (a b : Z * Z) :
  lex_leb a b = true \/ lex_leb b a = true.
Proof. rewrite !lex_leb_iff. lia. Qed.

Lemma lex_leb_trans (a b c : Z * Z) :
  lex_leb a b = true -> lex_leb b c = true -> lex_leb a c = true.
Proof. rewrite !lex_leb_iff. lia. Qed.

Lemma StronglySorted_impl_in {A : Type} (R R' : A -> A -> Prop)
      (l : list A) :
  (forall a b, In a l -> In b l -> R a b -> R' a b) ->
  StronglySorted R l -> StronglySorted R' l.
Proof.
  intros Himp Hs. induction Hs as [|x t Ht IH Hx].
  - constructor.
  - constructor.
    + apply IH. intros a b Ha Hb. apply Himp; now right.
    + apply Forall_forall. intros y Hy. apply Himp.
      * now left.
      * now right.
      * now apply (proj1 (Forall_forall _ t) Hx).
Qed.

Lemma StronglySorted_filter {A : Type} (R : A -> A -> Prop)
      (f : A -> bool) (l : list A) :
  StronglySorted R l -> StronglySorted R (filter f l).
Proof.
  induction 1 as [|x t Ht IH Hx]; simpl.
  - constructor.
  - destruct (f x); [|assumption].
    constructor; [assumption|].
    apply Forall_forall. intros y Hy. apply filter_In in Hy.
    now apply (proj1 (Forall_forall _ t) Hx).
Qed.

Lemma StronglySorted_map_inv {A B : Type} (R : B -> B -> Prop)
      (f : A -> B) (l : list A) :
  StronglySorted R (map f l) ->
  StronglySorted (fun a b => R (f a) (f b)) l.
Proof.
  induction l as [|x t IH]; simpl; intros H.
  - constructor.
  - inversion_clear H as [|? ? Ht Hx]. constructor; [now apply IH|].
    apply Forall_forall. intros y Hy.
    apply (proj1 (Forall_forall _ _) Hx). now apply in_map.
Qed.

Lemma sorted_head {A : Type} (R : A -> A -> Prop) (x y : A) (t : list A) :
  StronglySorted R (x :: t) -> In y (x :: t) -> y = x \/ R x y.
Proof.
  intros H [<-|Hy]; [now left|]. right.
  inversion_clear H as [|? ? _ Hx].
  now apply (proj1 (Forall_forall _ t) Hx).
Qed.

Lemma last_In {A : Type} (x : A) (t : list A) (d : A) :
  In (last (x :: t) d) (x :: t).
Proof.
  revert x. induction t as [|y t IH]; intros x.
  - now left.
  - right. apply (IH y).
Qed.

Lemma sorted_last {A : Type} (R : A -> A -> Prop) (l : list A) (y d : A) :
  StronglySorted R l -> In y l -> y = last l d \/ R y (last l d).
Proof.
  induction 1 as [|x t Ht IH Hx]; intros Hy; [destruct Hy|].
  destruct t as [|z t'].
  - destruct Hy as [<-|[]]. now left.
  - change (last (x :: z :: t') d) with (last (z :: t') d).
    destruct Hy as [<-|Hy].
    + right. apply (proj1 (Forall_forall _ _) Hx). apply last_In.
    + now apply IH.
Qed.

Lemma last_map {A B : Type} (f : A -> B) (x : A) (t : list A)
      (d : B) (d' : A) :
  last (map f (x :: t)) d = f (last (x :: t) d').
Proof.
  revert x. induction t as [|y t IH]; intros x.
  - reflexivity.
  - change (last (map f (x :: y :: t)) d) with (last (map f (y :: t)) d).
    change (last (x :: y :: t) d') with (last (y :: t) d').
    apply IH.
Qed.

End OrderFacts.

(** ** Further properties of the timeline and of the episodes *)

Module TimelineExtra.
Import Frame Concession Reference Examples.
Import FrameFacts ConcessionFacts TariffFacts OrderFacts.

Local Abbreviation by_drug_then_month :=
  (fun a b : flag_row =>
     lex_leb (vmpp a, month a) (vmpp b, month b) = true).

Lemma has_duplicates_true (l : list (Z * Z)) :
  has_duplicates l = true <->
  exists k, (2 <= count_occ pair_eq_dec l k)%nat.
Proof.
  induction l as [|k t IH]; simpl.
  - split; [discriminate | intros [k Hk]; lia].
  - rewrite orb_true_iff, IH. split.
    + intros [Hin | [k' Hk']].
      * destruct (in_dec pair_eq_dec k t) as [Hin'|]; [|discriminate].
        exists k. apply (count_occ_In pair_eq_dec) in Hin'.
        destruct (pair_eq_dec k k); [lia | congruence].
      * exists k'. destruct (pair_eq_dec k k'); lia.
    + intros [k' Hk']. destruct (pair_eq_dec k k') as [<-|Hne].
      * left. destruct (in_dec pair_eq_dec k t) as [|Hnin]; [reflexivity|].
        apply (count_occ_not_In pair_eq_dec) in Hnin. lia.
      * right. now exists k'.
Qed.

(** X1.  Line 61 fails exactly when some (month, vmpp) pair stands on two
    rows of its input. *)
Theorem reshape_fails_iff_pair_repeated (df : list flag_row) :
  dates_cons_df df = None <->
  exists m v, (2 <= count_rows v m df)%nat.
Proof.
  unfold dates_cons_df, unstack, count_rows.
  destruct (has_duplicates (map index_key df)) eqn:E; simpl.
  - split; [intros _ | reflexivity].
    apply has_duplicates_true in E. destruct E as [[m v] H]. eauto.
  - split; [discriminate|]. intros (m & v & H).
    assert (has_duplicates (map index_key df) = true)
      by (apply has_duplicates_true; eauto).
    congruence.
Qed.

(** X2.  The sort of line 55 has no effect on line 61: the reshape reads
    its input as a set of rows, and fails on the sorted frame exactly
    when it fails on the unsorted one. *)
Theorem sort_before_reshape_is_immaterial (df : list flag_row) :
  dates_cons_df (sort_values_month_vmpp df) = dates_cons_df df.
Proof.
  unfold sort_values_month_vmpp.
  set (leb := fun a b => lex_leb (month a, vmpp a) (month b, vmpp b)).
  assert (P : Permutation (map index_key (sort leb df)) (map index_key df))
    by apply Permutation_map, sort_perm.
  destruct (dates_cons_df df) as [dense|] eqn:E.
  - assert (Hnd : NoDup (map index_key df)).
    { unfold dates_cons_df in E.
      destruct (unstack df) as [w|] eqn:Hw; [|discriminate].
      now apply unstack_Some in Hw. }
    rewrite <- E. apply dates_cons_df_ext.
    + apply (Permutation_NoDup (Permutation_sym P) Hnd).
    + assumption.
    + intros r. apply sort_In.
  - apply dates_cons_df_None. apply dates_cons_df_None in E.
    intros Hnd. apply E. apply (Permutation_NoDup P Hnd).
Qed.

Lemma timeline_keys_NoDup (df dense : list flag_row) :
  dates_cons_df df = Some dense -> NoDup (map index_key dense).
Proof.
  intros Hd. destruct df as [|r0 t].
  - injection Hd as <-. constructor.
  - destruct (list_min (map month (r0 :: t))) as [lo|] eqn:Hlo;
      [|discriminate].
    destruct (list_max (map month (r0 :: t))) as [hi|] eqn:Hhi;
      [|discriminate].
    pose proof (dates_cons_df_perm _ _ lo hi Hd Hlo Hhi) as P.
    apply (Permutation_NoDup
             (Permutation_sym (Permutation_map index_key P))).
    rewrite dense_rows_keys. apply NoDup_list_prod.
    + apply date_range_NoDup.
    + apply unique_sorted_NoDup.
Qed.

Lemma timeline_sorted (df dense : list flag_row) :
  dates_cons_df df = Some dense ->
  StronglySorted by_drug_then_month dense.
Proof.
  unfold dates_cons_df. destruct (unstack df) as [w|]; [|discriminate].
  intros [= <-]. unfold sort_index_level1.
  apply (sort_sorted (fun a b => lex_leb (vmpp a, month a) (vmpp b, month b))).
  - intros x y. apply lex_leb_total.
  - intros x y z. apply lex_leb_trans.
Qed.

(** X3.  The dense timeline is ordered by drug and, within a drug, by
    month, strictly: a later row has a greater drug identifier, or the
    same drug and a later month. *)
Theorem timeline_ordered_by_drug_then_month (df dense : list flag_row) :
  dates_cons_df df = Some dense ->
  StronglySorted
    (fun a b => vmpp a < vmpp b \/ (vmpp a = vmpp b /\ month a < month b))
    dense.
Proof.
  intros Hd.
  pose proof (timeline_sorted df dense Hd) as Hs.
  pose proof (timeline_keys_NoDup df dense Hd) as Hnd.
  clear Hd. induction Hs as [|x t Ht IH Hx].
  - constructor.
  - simpl in Hnd. inversion_clear Hnd as [|? ? Hnin Hnd'].
    constructor; [now apply IH|].
    apply Forall_forall. intros y Hy.
    pose proof (proj1 (Forall_forall _ t) Hx y Hy) as Hle.
    apply lex_leb_iff in Hle. simpl in Hle.
    assert (index_key x <> index_key y).
    { intros Heq. apply Hnin. rewrite Heq. now apply in_map. }
    unfold index_key in *.
    destruct (Z.eq_dec (month x) (month y)); [|lia].
    destruct (Z.eq_dec (vmpp x) (vmpp y)); [congruence | lia].
Qed.

Lemma timeline_ordered_by_drug_then_month_witness :
  StronglySorted
    (fun a b => vmpp a < vmpp b \/ (vmpp a = vmpp b /\ month a < month b))
    (dense_of two_runs).
Proof.
  apply (timeline_ordered_by_drug_then_month (dates_df two_runs)).
  vm_compute. reflexivity.
Defined.

Lemma length_shift {B : Type} (l : list B) : length (shift l) = length l.
Proof.
  unfold shift. rewrite length_firstn. simpl. rewrite length_map. lia.
Qed.

Lemma length_cumsum_from (acc : Z) (l : list bool) :
  length (cumsum_from acc l) = length l.
Proof.
  revert acc. induction l as [|b t IH]; intros acc; simpl;
    [reflexivity | now rewrite IH].
Qed.

Lemma length_Consecutive (cb : list Z) :
  length (transform_size (cumsum (ne_shift cb))) = length cb.
Proof.
  unfold transform_size, cumsum, ne_shift.
  rewrite length_map, length_cumsum_from, length_map, length_combine,
    length_shift.
  lia.
Qed.

(** [assign] only adds a column. *)
Lemma assign_Consecutive_rows (dense : list flag_row) :
  map row (assign_Consecutive dense) = dense.
Proof.
  unfold assign_Consecutive. rewrite map_map. simpl.
  apply map_fst_combine. now rewrite length_Consecutive, length_map.
Qed.

Lemma assign_Consecutive_positive (dense : list flag_row) (t : run_row) :
  In t (assign_Consecutive dense) -> 1 <= Consecutive t.
Proof.
  unfold assign_Consecutive. intros Ht. apply in_map_iff in Ht.
  destruct Ht as ([r c] & <- & Hin). simpl.
  apply in_combine_r in Hin. unfold transform_size in Hin.
  apply in_map_iff in Hin. destruct Hin as (k & <- & Hk).
  apply (count_occ_In Z.eq_dec) in Hk. lia.
Qed.

Lemma unique_sorted2_In (l : list (Z * Z)) (k : Z * Z) :
  In k (unique_sorted2 l) <-> In k l.
Proof. unfold unique_sorted2. rewrite sort_In. apply nodup_In. Qed.

Lemma unique_sorted2_NoDup (l : list (Z * Z)) : NoDup (unique_sorted2 l).
Proof.
  unfold unique_sorted2.
  apply (Permutation_NoDup (l := nodup pair_eq_dec l)).
  - symmetry. apply sort_perm.
  - apply NoDup_nodup.
Qed.

Local Abbreviation flagged_rows dense :=
  (filter (fun r => 0 <? concession_bool (row r)) (assign_Consecutive dense)).

Local Abbreviation group_of dense k :=
  (filter (fun r => (vmpp (row r) =? fst k) && (Consecutive r =? snd k))
          (flagged_rows dense)).

Lemma group_of_In (dense : list flag_row) (k : Z * Z) (y : run_row) :
  In y (group_of dense k) <->
  In y (assign_Consecutive dense) /\ 0 < concession_bool (row y)
  /\ vmpp (row y) = fst k /\ Consecutive y = snd k.
Proof.
  rewrite !filter_In, andb_true_iff, Z.ltb_lt, !Z.eqb_eq. tauto.
Qed.

(** Within a group the rows come in ascending order of month. *)
Lemma group_of_sorted (df dense : list flag_row) (k : Z * Z) :
  dates_cons_df df = Some dense ->
  StronglySorted (fun a b => month (row a) <= month (row b))
                 (group_of dense k).
Proof.
  intros Hd. pose proof (timeline_sorted df dense Hd) as Hs.
  rewrite <- (assign_Consecutive_rows dense) in Hs.
  apply StronglySorted_map_inv in Hs.
  apply (StronglySorted_filter _ (fun r => 0 <? concession_bool (row r)))
    in Hs.
  apply (StronglySorted_filter
           _ (fun r => (vmpp (row r) =? fst k) && (Consecutive r =? snd k)))
    in Hs.
  revert Hs. apply StronglySorted_impl_in.
  intros a b Ha Hb Hab. apply group_of_In in Ha, Hb.
  apply lex_leb_iff in Hab. simpl in Hab. lia.
Qed.

(** The episodes are the groups of flagged rows, one per key. *)
Lemma episodes_In (dense : list flag_row) (e : episode) :
  In e (episodes dense) <->
  exists t0, In t0 (flagged_rows dense)
    /\ e = {| ep_vmpp := vmpp (row t0);
              ep_Consecutive := Consecutive t0;
              first_month :=
                hd 0 (map (fun r => month (row r))
                          (group_of dense (group_key t0)));
              last_month :=
                last (map (fun r => month (row r))
                          (group_of dense (group_key t0))) 0 |}.
Proof.
  unfold episodes, groupby_aggregate. rewrite in_map_iff. split.
  - intros (k & <- & Hk). apply unique_sorted2_In, in_map_iff in Hk.
    destruct Hk as (t0 & <- & Ht0). exists t0. split; [assumption|].
    reflexivity.
  - intros (t0 & Ht0 & ->). exists (group_key t0). split; [reflexivity|].
    apply unique_sorted2_In. now apply in_map.
Qed.

(** The bounds of a group: its first and its last month belong to rows of
    the group, and every row of the group lies between them. *)
Lemma group_of_bounds (df dense : list flag_row) (t0 : run_row) :
  dates_cons_df df = Some dense ->
  In t0 (flagged_rows dense) ->
  let g := group_of dense (group_key t0) in
  let f := hd 0 (map (fun r => month (row r)) g) in
  let l := last (map (fun r => month (row r)) g) 0 in
  (exists x, In x g /\ month (row x) = f)
  /\ (exists z, In z g /\ month (row z) = l)
  /\ forall y, In y g -> f <= month (row y) <= l.
Proof.
  intros Hd Ht0 g f l.
  assert (Hin0 : In t0 g).
  { apply filter_In. split; [assumption|].
    unfold group_key. simpl. now rewrite !Z.eqb_refl. }
  pose proof (group_of_sorted df dense (group_key t0) Hd) as Hs.
  fold g in Hs. subst f l.
  destruct g as [|x t]; [destruct Hin0|].
  rewrite (last_map (fun r => month (row r)) x t 0 x).
  simpl hd. split; [|split].
  - exists x. split; [now left | reflexivity].
  - exists (last (x :: t) x). split; [apply last_In | reflexivity].
  - intros y Hy. split.
    + destruct (sorted_head _ x y t Hs Hy) as [->|H]; lia.
    + destruct (sorted_last _ (x :: t) y x Hs Hy) as [H|H]; [|lia].
      rewrite <- H. lia.
Qed.

(** X4.  Every extracted episode is well formed: its first month is not
    after its last month, the drug is on concession in both, and its
    run length is at least 1. *)
Theorem episode_bounds_are_concession_months
        (df dense : list flag_row) (e : episode) :
  dates_cons_df df = Some dense ->
  In e (episodes dense) ->
  first_month e <= last_month e
  /\ 1 <= ep_Consecutive e
  /\ (exists r, In r dense /\ vmpp r = ep_vmpp e
                /\ month r = first_month e /\ 0 < concession_bool r)
  /\ (exists r, In r dense /\ vmpp r = ep_vmpp e
                /\ month r = last_month e /\ 0 < concession_bool r).
Proof.
  intros Hd He. apply episodes_In in He. destruct He as (t0 & Ht0 & ->).
  cbn [ep_vmpp ep_Consecutive first_month last_month].
  destruct (group_of_bounds df dense t0 Hd Ht0)
    as ((x & Hx & Hfx) & (z & Hz & Hlz) & Hall).
  assert (Hrow : forall y, In y (group_of dense (group_key t0)) ->
                           In (row y) dense
                           /\ vmpp (row y) = vmpp (row t0)
                           /\ 0 < concession_bool (row y)).
  { intros y Hy. apply group_of_In in Hy.
    destruct Hy as (Hy & Hc & Hv & _). repeat split; try assumption.
    rewrite <- (assign_Consecutive_rows dense). now apply in_map. }
  repeat split.
  - pose proof (Hall x Hx). lia.
  - apply filter_In in Ht0.
    apply (assign_Consecutive_positive dense). tauto.
  - exists (row x). destruct (Hrow x Hx) as (H1 & H2 & H3). auto.
  - exists (row z). destruct (Hrow z Hz) as (H1 & H2 & H3). auto.
Qed.

Lemma episode_bounds_are_concession_months_witness :
  let dense := dense_of ends_three_before_max in
  let e := mk_episode 1 2 3 4 in
  first_month e <= last_month e
  /\ 1 <= ep_Consecutive e
  /\ (exists r, In r dense /\ vmpp r = ep_vmpp e
                /\ month r = first_month e /\ 0 < concession_bool r)
  /\ (exists r, In r dense /\ vmpp r = ep_vmpp e
                /\ month r = last_month e /\ 0 < concession_bool r).
Proof.
  apply (episode_bounds_are_concession_months
           (dates_df ends_three_before_max)).
  - vm_compute. reflexivity.
  - vm_compute. auto.
Defined.

(** X5.  No concession month is lost by the extraction: every flagged
    row of the dense timeline lies within the bounds of an extracted
    episode of its drug (before the filter of line 78). *)
Theorem flagged_month_is_covered
        (df dense : list flag_row) (r : flag_row) :
  dates_cons_df df = Some dense ->
  In r dense -> 0 < concession_bool r ->
  exists e, In e (episodes dense) /\ ep_vmpp e = vmpp r
            /\ first_month e <= month r <= last_month e.
Proof.
  intros Hd Hr Hc.
  rewrite <- (assign_Consecutive_rows dense) in Hr.
  apply in_map_iff in Hr. destruct Hr as (t0 & <- & Ht0).
  assert (HF : In t0 (flagged_rows dense))
    by (apply filter_In; split; [assumption | now apply Z.ltb_lt]).
  eexists. split; [apply episodes_In; exists t0; split;
                   [exact HF | reflexivity]|].
  cbn [ep_vmpp ep_Consecutive first_month last_month].
  split; [reflexivity|].
  destruct (group_of_bounds df dense t0 Hd HF) as (_ & _ & Hall).
  apply Hall. apply filter_In. split; [assumption|].
  unfold group_key. simpl. now rewrite !Z.eqb_refl.
Qed.

Lemma flagged_month_is_covered_witness :
  exists e, In e (episodes (dense_of two_runs))
            /\ ep_vmpp e = vmpp (mk_flag 2 1 1)
            /\ first_month e <= month (mk_flag 2 1 1) <= last_month e.
Proof.
  apply (flagged_month_is_covered (dates_df two_runs)).
  - vm_compute. reflexivity.
  - vm_compute. auto.
  - reflexivity.
Defined.

Lemma NoDup_map_filter {B C : Type} (k : B -> C) (f : B -> bool)
      (l : list B) :
  NoDup (map k l) -> NoDup (map k (filter f l)).
Proof.
  induction l as [|x t IH]; simpl; intros H; [constructor|].
  inversion_clear H as [|? ? Hx Ht]. destruct (f x); simpl; [|auto].
  constructor; [|auto].
  intros Hin. apply Hx. apply in_map_iff in Hin.
  destruct Hin as (y & Hy & Hin). apply filter_In in Hin.
  rewrite <- Hy. apply in_map. tauto.
Qed.

(** X6.  The extraction never gives two episodes of the same drug with
    the same run length, before or after the filter of line 78: runs of
    one drug that have the same length share one output row. *)
Theorem one_episode_per_drug_and_length (dense : list flag_row) :
  NoDup (map (fun e => (ep_vmpp e, ep_Consecutive e)) (episodes dense))
  /\ NoDup (map (fun e => (ep_vmpp e, ep_Consecutive e))
                (pc_summary_df dense)).
Proof.
  assert (H : NoDup (map (fun e => (ep_vmpp e, ep_Consecutive e))
                         (episodes dense))).
  { unfold episodes, groupby_aggregate. rewrite map_map. simpl.
    rewrite (map_ext _ (fun k => k)) by (now intros [a b]).
    rewrite map_id. apply unique_sorted2_NoDup. }
  split; [exact H|].
  unfold pc_summary_df, query_last_month. now apply NoDup_map_filter.
Qed.

End TimelineExtra.

(** ** Further properties of the rolling price and of the joins *)

Module JoinExtra.
Import Frame Float Concession Tariff Impact Reference Examples.
Import FrameFacts TariffFacts OrderFacts TariffSpec ImpactSpec.

(** X7.  [dates_df_merge] lists the episodes latest first: no row has a
    later last month than a row above it. *)
Theorem joined_rows_latest_first
        (pc : list episode) (df : list tariff_row) :
  StronglySorted (fun a b => last_month (ep b) <= last_month (ep a))
                 (dates_df_merge pc df).
Proof.
  unfold dates_df_merge.
  eapply StronglySorted_impl_in;
    [|apply (sort_sorted
               (fun a b => last_month (ep b) <=? last_month (ep a)))].
  - intros a b _ _ H. now apply Z.leb_le.
  - intros x y. apply Zleb_total.
  - intros x y z H1 H2. apply (Zleb_trans _ _ _ H2 H1).
Qed.

Lemma filter_none {B : Type} (f : B -> bool) (l : list B) :
  (forall y, In y l -> f y = false) -> filter f l = [].
Proof.
  induction l as [|x t IH]; intros H; simpl; [reflexivity|].
  rewrite (H x) by now left. apply IH. intros y Hy. apply H. now right.
Qed.

Lemma filter_at_most_one {B C : Type} (k : B -> C) (c : C)
      (f : B -> bool) (l : list B) :
  NoDup (map k l) ->
  (forall y, In y l -> f y = true -> k y = c) ->
  (length (filter f l) <= 1)%nat.
Proof.
  induction l as [|x t IH]; simpl; intros Hnd Hk; [lia|].
  inversion_clear Hnd as [|? ? Hx Ht].
  destruct (f x) eqn:E.
  - rewrite filter_none; [simpl; lia|].
    intros y Hy. destruct (f y) eqn:Ey; [|reflexivity].
    destruct Hx. rewrite (Hk x) by auto.
    rewrite <- (Hk y) by auto. now apply in_map.
  - apply IH; [assumption|]. intros y Hy. apply Hk. now right.
Qed.

Lemma merge_left_fst {L R : Type} (on : L -> R -> bool)
      (left : list L) (right : list R) :
  (forall x, In x left -> (length (filter (on x) right) <= 1)%nat) ->
  map fst (merge_left on left right) = left.
Proof.
  unfold merge_left. induction left as [|x t IH]; intros H;
    [reflexivity|].
  cbn [flat_map]. rewrite map_app, IH by (intros y Hy; apply H; now right).
  specialize (H x (or_introl eq_refl)).
  destruct (filter (on x) right) as [|y [|z ms]]; simpl in *;
    [reflexivity | reflexivity | lia].
Qed.

Lemma priced_keys (df : list tariff_row) :
  map (fun r => (t_vmpp (src r), date (src r))) (priced df) =
  map (fun r => (t_vmpp r, date r)) df.
Proof. rewrite <- (priced_src df) at 2. now rewrite map_map. Qed.

Lemma priced_shifts (df : list tariff_row) (r : priced_row) :
  In r (priced df) ->
  In (src r) df /\ pre_month r = date (src r) + 1
  /\ post_month r = date (src r) + (-3).
Proof.
  intros Hr. destruct (priced_In df r Hr) as (_ & _ & _ & H1 & H2 & _).
  repeat split; try assumption.
  rewrite <- (priced_src df). now apply in_map.
Qed.

(** X8.  When the tariff frame has at most one row per drug and month,
    the two left joins neither drop nor repeat an episode: the episodes
    of [dates_df_merge] are those of [pc_summary_df], each once. *)
Theorem join_keeps_each_episode_once
        (pc : list episode) (df : list tariff_row) :
  NoDup (map (fun r => (t_vmpp r, date r)) df) ->
  Permutation (map ep (dates_df_merge pc df)) pc.
Proof.
  intros Hnd. rewrite <- priced_keys in Hnd.
  unfold dates_df_merge.
  rewrite !(Permutation_map ep (sort_perm _ _)).
  rewrite map_map.
  rewrite (map_ext _ (fun x => fst (fst x))) by reflexivity.
  rewrite <- (map_map fst fst).
  rewrite merge_left_fst, merge_left_fst; [reflexivity | |].
  - intros e _.
    apply (filter_at_most_one
             (fun r => (t_vmpp (src r), date (src r)))
             (ep_vmpp e, first_month e - 1)); [assumption|].
    intros r Hr Hon. apply andb_prop in Hon. destruct Hon as [Hv Hm].
    apply Z.eqb_eq in Hv, Hm.
    destruct (priced_shifts df r Hr) as (_ & Hp & _). f_equal; lia.
  - intros [e o] _. simpl.
    apply (filter_at_most_one
             (fun r => (t_vmpp (src r), date (src r)))
             (ep_vmpp e, last_month e + 3)); [assumption|].
    intros r Hr Hon. apply andb_prop in Hon. destruct Hon as [Hv Hm].
    apply Z.eqb_eq in Hv, Hm.
    destruct (priced_shifts df r Hr) as (_ & _ & Hp). f_equal; lia.
Qed.

Lemma join_keeps_each_episode_once_witness :
  Permutation (map ep (dates_df_merge one_episode steady_prices))
              one_episode.
Proof.
  apply (join_keeps_each_episode_once one_episode steady_prices).
  apply has_duplicates_false. vm_compute. reflexivity.
Defined.

(** X9.  An episode whose drug has no tariff row dated the month before
    its first month gets no drug code from the join of line 119, so no
    quantity row that carries a drug code is ever joined to it: it
    contributes no cost, even when its post-concession price is known. *)
Theorem episode_without_prior_price_is_never_costed
        (pc : list episode) (df : list tariff_row) (rxs : list rx_row)
        (j : joined_row) (i : impact_row) :
  In j (dates_df_merge pc df) ->
  (forall r, In r df -> t_vmpp r = ep_vmpp (ep j) ->
             date r <> first_month (ep j) - 1) ->
  In i (rx_df_merge (dates_df_merge pc df) rxs) ->
  rx_bnf_code (rx i) <> None ->
  j_bnf_code j = None /\ matched i <> Some j.
Proof.
  intros Hj Hno Hi Hcode. apply dates_df_merge_In in Hj.
  destruct Hj as (e & pre & post & -> & _ & Hpre & _). simpl in Hno.
  assert (pre = None) as ->.
  { destruct pre as [r|]; [|reflexivity]. destruct Hpre as [Hr Hon].
    apply andb_prop in Hon. destruct Hon as [Hv Hm].
    apply Z.eqb_eq in Hv, Hm.
    destruct (priced_shifts df r Hr) as (Hsrc & Hp & _).
    destruct (Hno (src r) Hsrc); [congruence | lia]. }
  split; [reflexivity|].
  intros Hm. apply rx_df_merge_In in Hi. destruct Hi as (_ & _ & Hon).
  rewrite Hm in Hon. destruct Hon as [_ Hon].
  apply on_rx_true in Hon. destruct Hon as [Hb _].
  simpl in Hb. congruence.
Qed.

Lemma episode_without_prior_price_is_never_costed_witness :
  j_bnf_code no_prior_joined = None
  /\ matched {| matched := None; rx := mk_rx 5 1000;
                additional_cost := NaN |} <> Some no_prior_joined.
Proof.
  apply (episode_without_prior_price_is_never_costed
           one_episode no_prior_prices quantities).
  - vm_compute. left. reflexivity.
  - intros r Hr _. simpl in Hr.
    repeat (destruct Hr as [<-|Hr]; [simpl; lia|]). destruct Hr.
  - vm_compute. left. reflexivity.
  - discriminate.
Defined.

(** A quantity row whose drug code is null is joined to such an episode:
    the two null codes match. *)
Lemma null_codes_are_joined :
  rx_df_merge (dates_df_merge one_episode no_prior_prices)
              [null_code_quantity]
  = [mk_impact no_prior_joined null_code_quantity]
  /\ additional_cost (mk_impact no_prior_joined null_code_quantity) = NaN.
Proof. split; vm_compute; reflexivity. Qed.

(** X10.  A rolling price that is not null lies between the least and
    the greatest of the three prices it averages: the row's own price
    and the prices of the two rows of the same drug before it. *)
Theorem rolling_price_within_its_window
        (l1 : list tariff_row) (r : tariff_row) (l2 : list tariff_row)
        (q : Q) :
  nth (length l1) (map three_month_price (priced (l1 ++ r :: l2))) NaN
  = Fin q ->
  exists a b rest,
    rev (map price_pence (group (t_vmpp r) l1)) = b :: a :: rest
    /\ (Qmin a (Qmin b (price_pence r)) <= q)%Q
    /\ (q <= Qmax a (Qmax b (price_pence r)))%Q.
Proof.
  rewrite priced_three_month_price, three_month_price_at.
  destruct (rev (map price_pence (group (t_vmpp r) l1)))
    as [|b [|a rest]]; try discriminate.
  intros [= <-]. exists a, b, rest. split; [reflexivity|].
  set (p := price_pence r).
  assert (H : 3 * mean [a; b; p] == a + b + p)
    by (unfold mean; simpl; field).
  set (m := mean [a; b; p]) in *. split.
  - rewrite !Q.min_le_iff.
    destruct (Qlt_le_dec m a); [|lra].
    destruct (Qlt_le_dec m b); [|lra].
    destruct (Qlt_le_dec m p); [|lra]. lra.
  - rewrite !Q.max_le_iff.
    destruct (Qlt_le_dec a m); [|lra].
    destruct (Qlt_le_dec b m); [|lra].
    destruct (Qlt_le_dec p m); [|lra]. lra.
Qed.

Lemma rolling_price_within_its_window_witness :
  exists a b rest,
    rev (map price_pence
             (group 9 [mk_tariff 7 0 10; mk_tariff 9 0 5; mk_tariff 7 1 20;
                       mk_tariff 7 2 30; mk_tariff 9 1 6]))
    = b :: a :: rest
    /\ (Qmin a (Qmin b 7) <= 18 # 3)%Q
    /\ (18 # 3 <= Qmax a (Qmax b 7))%Q.
Proof.
  apply (rolling_price_within_its_window
           [mk_tariff 7 0 10; mk_tariff 9 0 5; mk_tariff 7 1 20;
            mk_tariff 7 2 30; mk_tariff 9 1 6]
           (mk_tariff 9 2 7) [mk_tariff 7 3 40] (18 # 3)).
  vm_compute. reflexivity.
Defined.

(** X11.  For a quantity row joined to an episode with both prices
    known, a positive quantity and a positive pack quantity, the
    additional cost is a number whose sign is that of the price change:
    positive exactly when the price rose, zero exactly when it did not
    change, negative when it fell (the cost is not clamped at 0). *)
Theorem additional_cost_sign_follows_price_change
        (dm : list joined_row) (rxs : list rx_row)
        (i : impact_row) (j : joined_row) (a b u : Q) :
  In i (rx_df_merge dm rxs) ->
  matched i = Some j ->
  pre_pc_price j = Fin a -> post_pc_price j = Fin b ->
  j_unit_qty j = Fin u ->
  (0 < u)%Q -> (0 < roll_3m_quantity (rx i))%Q ->
  exists c, additional_cost i = Fin c
            /\ ((0 < c)%Q <-> (a < b)%Q)
            /\ (c == 0 <-> a == b)
            /\ ((c < 0)%Q <-> (b < a)%Q).
Proof.
  intros Hi Hm Ha Hb Hu Hpos Hq.
  apply rx_df_merge_In in Hi. destruct Hi as (_ & Hc & _).
  rewrite Hm in Hc. simpl in Hc. rewrite Ha, Hb, Hu in Hc.
  unfold additional_cost_of in Hc. simpl in Hc.
  assert (Hz : is_zero u = false).
  { destruct (is_zero u) eqn:E; [|reflexivity].
    apply is_zero_iff in E. lra. }
  rewrite Hz in Hc. simpl in Hc. eexists. split; [exact Hc|].
  set (q := roll_3m_quantity (rx i)) in *.
  assert (Hk : (0 < (1 # 100) * (q / u))%Q).
  { apply Qmult_lt_0_compat; [reflexivity|].
    apply Qlt_shift_div_l; lra. }
  set (k := ((1 # 100) * (q / u))%Q) in *.
  repeat split; intros H; nra.
Qed.

Lemma additional_cost_sign_follows_price_change_witness :
  exists c, additional_cost (mk_impact steady_joined (mk_rx 5 1000))
            = Fin c
            /\ ((0 < c)%Q <-> (300 # 3 < 330 # 3)%Q)
            /\ (c == 0 <-> 300 # 3 == 330 # 3)
            /\ ((c < 0)%Q <-> (330 # 3 < 300 # 3)%Q).
Proof.
  apply (additional_cost_sign_follows_price_change
           (dates_df_merge one_episode steady_prices) quantities
           (mk_impact steady_joined (mk_rx 5 1000)) steady_joined
           (300 # 3) (330 # 3) 1%Q).
  - vm_compute. left. reflexivity.
  - reflexivity.
  - reflexivity.
  - reflexivity.
  - reflexivity.
  - reflexivity.
  - reflexivity.
Defined.

End JoinExtra.

(** ** Properties of the quantity query, of its filter and of the totals *)

Module QuantityExtra.
Import Frame Float Concession Tariff Impact Prescribing Reference Examples.
Import FrameFacts TariffFacts OrderFacts ImpactSpec.

Lemma filter_length_lt {B : Type} (f : B -> bool) (l : list B) (x : B) :
  In x l -> f x = false -> (length (filter f l) < length l)%nat.
Proof.
  induction l as [|y t IH]; intros Hx Hf; [destruct Hx|].
  simpl. pose proof (filter_length_le f t).
  destruct Hx as [->|Hx].
  - rewrite Hf. lia.
  - specialize (IH Hx Hf). destruct (f y); simpl; lia.
Qed.

(** X12.  Line 165 fails on an empty fetch and on no other.  Otherwise
    it keeps a quantity row exactly when some fetched row starts at least
    two months later, so that its three-month window is within the
    fetched months; the rows of the latest month always go, so at least
    one row is lost. *)
Theorem quantity_filter_drops_latest_months (fetched : list rx_row) :
  (rx_df fetched = None <-> fetched = [])
  /\ forall kept, rx_df fetched = Some kept ->
       (forall r, In r kept <->
                  In r fetched
                  /\ exists r', In r' fetched
                                /\ date_3m_start r + 2 <= date_3m_start r')
       /\ (length kept < length fetched)%nat.
Proof.
  unfold rx_df.
  destruct (list_max (map date_3m_start fetched)) as [mx|] eqn:E.
  - split.
    + split; [discriminate | intros ->; discriminate].
    + intros kept [= <-].
      apply list_max_spec in E. destruct E as [Hin Hmax].
      apply in_map_iff in Hin. destruct Hin as (rmax & Hd & Hrmax).
      split.
      * intros r. rewrite filter_In, Z.leb_le. split.
        -- intros [Hr Hle]. split; [assumption|].
           exists rmax. split; [auto|lia].
        -- intros [Hr (r' & Hr' & Hle)]. split; [assumption|].
           pose proof (Hmax _ (in_map date_3m_start _ _ Hr')). lia.
      * apply (filter_length_lt _ _ rmax Hrmax). apply Z.leb_gt. lia.
  - split; [|discriminate].
    split; [|reflexivity]. intros _. now destruct fetched.
Qed.

Lemma rx_df_merge_dates (dm : list joined_row) (rxs : list rx_row) (d : Z) :
  In d (map (fun i => date_3m_start (rx i)) (rx_df_merge dm rxs)) <->
  In d (map date_3m_start rxs).
Proof.
  rewrite !in_map_iff. split.
  - intros (i & <- & Hi). apply rx_df_merge_In in Hi. exists (rx i). tauto.
  - intros (r & <- & Hr).
    destruct (merge_right_keeps on_rx dm rxs r Hr) as [o Ho].
    eexists. split; [|unfold rx_df_merge; apply in_map; exact Ho].
    reflexivity.
Qed.

(** X13.  The monthly totals of line 181 list every window start of the
    quantity rows exactly once, in ascending order, whether or not an
    episode was joined to any row of that month. *)
Theorem every_quantity_month_gets_a_total
        (dm : list joined_row) (rxs : list rx_row) :
  map fst (rx_sum_df (rx_df_merge dm rxs)) =
  unique_sorted (map date_3m_start rxs).
Proof.
  unfold rx_sum_df. rewrite map_map. simpl. rewrite map_id.
  apply unique_sorted_ext. apply rx_df_merge_dates.
Qed.

Lemma nansum_Fin (l : list float) (acc : Q) :
  (forall x, In x l -> x = NaN \/ exists c, x = Fin c) ->
  exists s, fold_left fadd (filter (fun x => negb (isna x)) l) (Fin acc)
            = Fin s.
Proof.
  revert acc. induction l as [|x t IH]; intros acc H; simpl.
  - now exists acc.
  - destruct (H x (or_introl eq_refl)) as [->|[c ->]]; simpl.
    + apply IH. intros y Hy. apply H. now right.
    + apply IH. intros y Hy. apply H. now right.
Qed.

(** X14.  In the monthly totals a null cost counts for nothing: a month
    all of whose costs are null has the total 0, not null, and a month
    whose costs are numbers or null has a number as its total. *)
Theorem null_costs_add_nothing
        (m : list impact_row) (d : Z) (t : float) :
  In (d, t) (rx_sum_df m) ->
  ((forall i, In i m -> date_3m_start (rx i) = d ->
              additional_cost i = NaN) ->
   t = Fin 0)
  /\ ((forall i, In i m -> date_3m_start (rx i) = d ->
                 additional_cost i = NaN
                 \/ exists c, additional_cost i = Fin c) ->
      exists s, t = Fin s).
Proof.
  unfold rx_sum_df. intros Hin. apply in_map_iff in Hin.
  destruct Hin as (d' & [= <- <-] & _).
  assert (Hrows : forall x,
             In x (map additional_cost
                       (filter (fun i => date_3m_start (rx i) =? d') m)) ->
             exists i, In i m /\ date_3m_start (rx i) = d'
                       /\ additional_cost i = x).
  { intros x Hx. apply in_map_iff in Hx. destruct Hx as (i & <- & Hi).
    apply filter_In in Hi. destruct Hi as [Hi Hd].
    apply Z.eqb_eq in Hd. eauto. }
  split; intros H; unfold nansum.
  - rewrite JoinExtra.filter_none; [reflexivity|].
    intros x Hx. destruct (Hrows x Hx) as (i & Hi & Hd & <-).
    now rewrite (H i Hi Hd).
  - apply nansum_Fin. intros x Hx.
    destruct (Hrows x Hx) as (i & Hi & Hd & <-). now apply H.
Qed.

Lemma null_costs_add_nothing_witness :
  ((forall i, In i (rx_df_merge (dates_df_merge one_episode steady_prices)
                                quantities) ->
              date_3m_start (rx i) = 6 -> additional_cost i = NaN) ->
   Fin 0 = Fin 0)
  /\ ((forall i, In i (rx_df_merge (dates_df_merge one_episode steady_prices)
                                   quantities) ->
                 date_3m_start (rx i) = 6 ->
                 additional_cost i = NaN
                 \/ exists c, additional_cost i = Fin c) ->
      exists s, Fin 0 = Fin s).
Proof.
  apply (null_costs_add_nothing
           (rx_df_merge (dates_df_merge one_episode steady_prices)
                        quantities) 6 (Fin 0)).
  vm_compute. right. left. reflexivity.
Defined.

Lemma rx_query_In (ncso : list ncso_row) (vmpps : list vmpp_row)
      (rxs : list prescribing_row) (o : rx_row) :
  In o (rx_query ncso vmpps rxs) <->
  exists r, In r (joined ncso vmpps rxs)
            /\ o = {| date_3m_start := rx_month r;
                      rx_bnf_code := Some (p_bnf_code r);
                      roll_3m_quantity :=
                        window_sum (joined ncso vmpps rxs)
                                   (p_bnf_code r) (rx_month r) |}.
Proof.
  unfold rx_query. rewrite sort_In, nodup_In, in_map_iff.
  split; intros (r & H1 & H2); exists r; auto.
Qed.

(** X15.  The quantity query returns at most one row per drug code and
    window start. *)
Theorem quantity_query_one_row_per_code_and_month
        (ncso : list ncso_row) (vmpps : list vmpp_row)
        (rxs : list prescribing_row) :
  NoDup (map (fun o => (rx_bnf_code o, date_3m_start o))
             (rx_query ncso vmpps rxs)).
Proof.
  apply NoDup_map_NoDup_ForallPairs.
  - intros a b Ha Hb Hk. apply rx_query_In in Ha, Hb.
    destruct Ha as (r & _ & ->), Hb as (r' & _ & ->).
    simpl in Hk. injection Hk as Hb Hm. now rewrite Hb, Hm.
  - unfold rx_query.
    eapply Permutation_NoDup; [symmetry; apply sort_perm|].
    apply NoDup_nodup.
Qed.







End QuantityExtra.

(** ** Properties across the stages *)

Module PipelineExtra.
Import Frame Float Concession Tariff Impact Reference Examples.
Import FrameFacts ConcessionFacts TariffFacts TariffSpec ImpactSpec JoinExtra.

(** X17.  With both prices known and a positive pre-concession price the
    percentage difference is a number whose sign is that of the price
    change. *)
Theorem perc_difference_sign_follows_price_change
        (pc : list episode) (df : list tariff_row) (j : joined_row)
        (a b : Q) :
  In j (dates_df_merge pc df) ->
  pre_pc_price j = Fin a -> post_pc_price j = Fin b -> (0 < a)%Q ->
  exists p, perc_difference j = Fin p
            /\ ((0 < p)%Q <-> (a < b)%Q)
            /\ (p == 0 <-> a == b)
            /\ ((p < 0)%Q <-> (b < a)%Q).
Proof.
  intros Hj Ha Hb Hpos. apply dates_df_merge_In in Hj.
  destruct Hj as (e & pre & post & -> & _). simpl in *.
  rewrite Ha, Hb. unfold perc_difference_of. simpl.
  assert (Hz : is_zero a = false).
  { destruct (is_zero a) eqn:E; [|reflexivity].
    apply is_zero_iff in E. lra. }
  rewrite Hz. simpl. eexists. split; [reflexivity|].
  assert (Hx : b / a * a == b) by (field; lra).
  set (x := (b / a)%Q) in *.
  repeat split; intros H; nra.
Qed.

Lemma perc_difference_sign_follows_price_change_witness :
  exists p, perc_difference steady_joined = Fin p
            /\ ((0 < p)%Q <-> (300 # 3 < 330 # 3)%Q)
            /\ (p == 0 <-> 300 # 3 == 330 # 3)
            /\ ((p < 0)%Q <-> (330 # 3 < 300 # 3)%Q).
Proof.
  apply (perc_difference_sign_follows_price_change
           one_episode steady_prices steady_joined (300 # 3) (330 # 3)).
  - vm_compute. left. reflexivity.
  - reflexivity.
  - reflexivity.
  - reflexivity.
Defined.

(** X18.  A quantity row is joined to an episode row only when its
    window starts the month after the episode's last month; and when the
    quantity row carries a drug code, that code is the code of the tariff
    row that the drug has for the month before the episode's first
    month. *)
Theorem matched_quantity_row_alignment
        (pc : list episode) (df : list tariff_row) (rxs : list rx_row)
        (i : impact_row) (j : joined_row) (b : string) :
  In i (rx_df_merge (dates_df_merge pc df) rxs) ->
  matched i = Some j ->
  rx_bnf_code (rx i) = Some b ->
  date_3m_start (rx i) = last_month (ep j) + 1
  /\ exists r, In r df /\ t_vmpp r = ep_vmpp (ep j)
               /\ date r = first_month (ep j) - 1
               /\ bnf_code r = b.
Proof.
  intros Hi Hm Hcode. apply rx_df_merge_In in Hi.
  destruct Hi as (_ & _ & Hon).
  rewrite Hm in Hon. destruct Hon as [Hj Hon].
  apply on_rx_true in Hon. destruct Hon as [Hb Hd].
  rewrite Hcode in Hb.
  apply dates_df_merge_In in Hj.
  destruct Hj as (e & pre & post & -> & _ & Hpre & _). simpl in *.
  split; [unfold rx_merge_date_of in Hd; lia|].
  destruct pre as [r|]; [|discriminate]. simpl in Hb.
  destruct Hpre as [Hr Hkey]. apply andb_prop in Hkey.
  destruct Hkey as [Hv Hf]. apply Z.eqb_eq in Hv, Hf.
  destruct (priced_shifts df r Hr) as (Hsrc & Hp & _).
  exists (src r). repeat split; [assumption | congruence | lia | congruence].
Qed.

Lemma matched_quantity_row_alignment_witness :
  date_3m_start (rx (mk_impact steady_joined (mk_rx 5 1000)))
  = last_month (ep steady_joined) + 1
  /\ exists r, In r steady_prices /\ t_vmpp r = ep_vmpp (ep steady_joined)
               /\ date r = first_month (ep steady_joined) - 1
               /\ bnf_code r = "0407010H0AAAMAM"%string.
Proof.
  apply (matched_quantity_row_alignment
           one_episode steady_prices quantities
           (mk_impact steady_joined (mk_rx 5 1000)) steady_joined).
  - vm_compute. left. reflexivity.
  - reflexivity.
  - reflexivity.
Defined.

(** X19.  The dense timeline has one row per drug of the input and month
    of the global range: its length is the number of distinct drugs
    times the number of months from the least to the greatest month. *)
Theorem timeline_size
        (df dense : list flag_row) (lo hi : Z) :
  dates_cons_df df = Some dense ->
  list_min (map month df) = Some lo ->
  list_max (map month df) = Some hi ->
  length dense =
  (length (unique_sorted (map vmpp df)) * Z.to_nat (hi - lo + 1))%nat.
Proof.
  intros Hd Hlo Hhi.
  rewrite (Permutation_length (dates_cons_df_perm df dense lo hi Hd Hlo Hhi)).
  rewrite <- (length_map index_key), dense_rows_keys, length_prod.
  unfold date_range. rewrite length_map, length_seq. lia.
Qed.

Lemma timeline_size_witness :
  length (dense_of two_runs) =
  (length (unique_sorted (map vmpp (dates_df two_runs)))
   * Z.to_nat (9 - 0 + 1))%nat.
Proof.
  apply (timeline_size (dates_df two_runs) (dense_of two_runs) 0 9);
    vm_compute; reflexivity.
Defined.

End PipelineExtra.
